(** * Region Active Effects: a shallow embedding of [region-active-effects.js]

    The module registers four region behaviours with the Foundry host.  Each
    behaviour is a short conditional handler that reads the event, the
    behaviour's configuration and the actor's effect collection, and then
    calls the host (toggleStatusEffect, ActiveEffect create / update /
    delete).  The handlers are embedded as functions into a small monad that
    records the host calls they issue, the exception (if any) that ends them,
    and the rejections of promises nobody awaits. *)

From Stdlib Require Import ZArith.
From stdpp Require Import base option strings list gmap.

Local Open Scope string_scope.
Local Open Scope list_scope.

#[local] Set Warnings "-clear-no-such-hyp".

(** ** JavaScript values that the handlers inspect *)

Inductive JsError :=
| TypeError (msg : string)
| Error (msg : string).

Inductive Completion (A : Type) :=
| Normal (a : A)
| Throw (e : JsError).
Arguments Normal {A} a.
Arguments Throw {A} e.

(** [!v] for a value that is a string, [null] or [undefined]: only [null],
    [undefined] and the empty string are falsy. *)
Definition falsy (v : option string) : bool :=
  match v with
  | None => true
  | Some s => bool_decide (s = "")
  end.

(** The string carried by a truthy value. *)
Definition truthy (v : option string) : option string :=
  match v with
  | Some s => if bool_decide (s = "") then None else Some s
  | None => None
  end.

(** [xs.includes(v)] for an array of strings and a possibly null [v]. *)
Definition includes (xs : list string) (v : option string) : bool :=
  match v with
  | Some s => bool_decide (s ∈ xs)
  | None => false
  end.

(** A [case label:] of a [switch (v)]: the strict comparison [v === label]. *)
Definition caseOf (v : option string) (label : string) : bool :=
  bool_decide (v = Some label).

(** Interpolation of a possibly null value in a template literal. *)
Definition interpolate (v : option string) : string :=
  default "null" v.

(** ** The run of an async function

    [calls] are the host calls issued, in order; [completion] is how the
    function's own promise settles; [rejections] are the errors of promises
    that were started without [await] and rejected. *)

Record Run (C A : Type) := MkRun {
  calls : list C;
  rejections : list JsError;
  completion : Completion A;
}.
Arguments MkRun {C A} _ _ _.
Arguments calls {C A} _.
Arguments rejections {C A} _.
Arguments completion {C A} _.

Definition ret {C A} (a : A) : Run C A := MkRun [] [] (Normal a).

Definition throw {C A} (e : JsError) : Run C A := MkRun [] [] (Throw e).

(** Sequencing, also the meaning of [await m] followed by [k]. *)
Definition bind {C A B} (m : Run C A) (k : A → Run C B) : Run C B :=
  match completion m with
  | Normal a =>
      let r := k a in
      MkRun (calls m ++ calls r) (rejections m ++ rejections r) (completion r)
  | Throw e => MkRun (calls m) (rejections m) (Throw e)
  end.

(** A host call; the host's promise is taken to fulfil. *)
Definition call {C} (c : C) : Run C unit := MkRun [c] [] (Normal tt).

(** An async function called as a statement, without [await]: the caller
    goes on, and a rejection of the callee stays unhandled. *)
Definition detach {C A} (m : Run C A) : Run C unit :=
  MkRun (calls m)
        (rejections m ++ match completion m with
                         | Normal _ => []
                         | Throw e => [e]
                         end)
        (Normal tt).

#[global] Instance run_ret {C} : MRet (Run C) := λ A, ret.
#[global] Instance run_bind {C} : MBind (Run C) := λ A B k m, bind m k.

(** Reading a property of a value that may be [null]. *)
Definition readProperty {C A} (prop : string) (o : option A) : Run C A :=
  match o with
  | Some a => ret a
  | None => throw (TypeError ("Cannot read properties of null (reading '" +:+ prop +:+ "')"))
  end.

(** ** Host documents *)

(** The start fields that [ActiveEffect.getInitialDuration()] returns under
    the key [duration]; a field that is [None] is not part of the object. *)
Record InitialDuration := {
  initStartTime : option Z;
  initStartRound : option Z;
  initStartTurn : option Z;
}.

Record Duration := {
  seconds : option Z;
  rounds : option Z;
  turns : option Z;
  startTime : option Z;
  startRound : option Z;
  startTurn : option Z;
}.

Module ActiveEffect.
(** The source data of an active effect ([effect.toObject()]); [extra]
    stands for the keys the module never reads. *)
Record t := {
  name : string;
  origin : option string;
  disabled : bool;
  transfer : bool;
  duration : Duration;
  extra : list (string * string);
}.
End ActiveEffect.

(** The object given to [document.update]: a key that is [None] is absent. *)
Record Changes := {
  changeDuration : option InitialDuration;
  changeDisabled : option bool;
}.

Record User := { isSelf : bool }.

Record Actor := { effects : list ActiveEffect.t }.

Record Token := { actor : option Actor }.

Record EventData := { token : option Token }.

Record RegionEvent := {
  data : option EventData;
  user : User;
}.

Record RegionBehavior := { behaviorUuid : string }.

(** The ambient host state the handlers read: the documents [fromUuid] can
    resolve, [game.users.activeGM], and the value of
    [ActiveEffect.getInitialDuration()]. *)
Record Game := {
  documents : gmap string ActiveEffect.t;
  activeGM : option User;
  getInitialDuration : InitialDuration;
}.

(** [fromUuid(uuid)]: the document, or [null]. *)
Definition fromUuid (game : Game) (uuid : option string) : option ActiveEffect.t :=
  u ← uuid; documents game !! u.

(** [event.data?.token?.actor] *)
Definition eventActor (event : RegionEvent) : option Actor :=
  d ← data event; t ← token d; actor t.

(** ** Host calls *)

(** The options object of [actor.toggleStatusEffect]: [toggleActive = None]
    is [active: undefined]; [toggleOverlay = None] is no [overlay] key. *)
Record ToggleOptions := {
  toggleActive : option bool;
  toggleOverlay : option bool;
}.

Inductive StatusCall :=
| toggleStatusEffect (statusId : string) (options : ToggleOptions).

(** Calls on active-effect documents of the event's actor.  A document of
    the actor's collection is referred to by its position in it. *)
Inductive EffectCall :=
| createEffect (effectData : ActiveEffect.t)
| updateEffect (target : nat) (changes : Changes)
| deleteEffect (target : nat).

(** [actor.effects.find(e => e.origin === uuid)] *)
Definition findByOrigin (a : Actor) (uuid : string) : option (nat * ActiveEffect.t) :=
  list_find (λ e, ActiveEffect.origin e = Some uuid) (effects a).

(** [actor.effects.getName(name)]: the first document of that name. *)
Definition getName (a : Actor) (name : option string) : option (nat * ActiveEffect.t) :=
  list_find (λ e, Some (ActiveEffect.name e) = name) (effects a).

(** What the host does with a call once it is carried out. *)
Definition mergeDuration (i : InitialDuration) (d : Duration) : Duration :=
  {| seconds := seconds d; rounds := rounds d; turns := turns d;
     startTime := from_option Some (startTime d) (initStartTime i);
     startRound := from_option Some (startRound d) (initStartRound i);
     startTurn := from_option Some (startTurn d) (initStartTurn i) |}.

Definition applyChanges (c : Changes) (e : ActiveEffect.t) : ActiveEffect.t :=
  {| ActiveEffect.name := ActiveEffect.name e;
     ActiveEffect.origin := ActiveEffect.origin e;
     ActiveEffect.disabled := default (ActiveEffect.disabled e) (changeDisabled c);
     ActiveEffect.transfer := ActiveEffect.transfer e;
     ActiveEffect.duration :=
       from_option (λ i, mergeDuration i (ActiveEffect.duration e))
                   (ActiveEffect.duration e) (changeDuration c);
     ActiveEffect.extra := ActiveEffect.extra e |}.

Definition perform (c : EffectCall) (a : Actor) : Actor :=
  match c with
  | createEffect d => {| effects := effects a ++ [d] |}
  | updateEffect i ch => {| effects := alter (applyChanges ch) i (effects a) |}
  | deleteEffect i => {| effects := delete i (effects a) |}
  end.

Definition performAll (cs : list EffectCall) (a : Actor) : Actor :=
  foldl (λ acc c, perform c acc) a cs.

(** ** The behaviours *)

Module StatusEffectRegionBehaviorType.
Record t := {
  statusId : option string;
  overlay : bool;
}.

Definition onTokenEnter (this : t) (event : RegionEvent) : Run StatusCall unit :=
  match eventActor event, truthy (statusId this) with
  | Some _, Some sid =>
      if negb (isSelf (user event)) then ret tt
      else call (toggleStatusEffect sid
                   {| toggleActive := Some true; toggleOverlay := Some (overlay this) |})
  | _, _ => ret tt
  end.

Definition onTokenExit (this : t) (event : RegionEvent) : Run StatusCall unit :=
  match eventActor event, truthy (statusId this) with
  | Some _, Some sid =>
      if negb (isSelf (user event)) then ret tt
      else call (toggleStatusEffect sid
                   {| toggleActive := Some false; toggleOverlay := None |})
  | _, _ => ret tt
  end.
End StatusEffectRegionBehaviorType.

Module StatusEffectEventsRegionBehaviorType.
Record t := {
  statusId : option string;
  action : string;
  overlay : bool;
}.

(** [action === "apply" ? true : action === "remove" ? false : undefined] *)
Definition active (this : t) : option bool :=
  if bool_decide (action this = "apply") then Some true
  else if bool_decide (action this = "remove") then Some false
  else None.

Definition _handleRegionEvent (this : t) (event : RegionEvent) : Run StatusCall unit :=
  match eventActor event, truthy (statusId this) with
  | Some _, Some sid =>
      call (toggleStatusEffect sid
              {| toggleActive := active this; toggleOverlay := Some (overlay this) |})
  | _, _ => ret tt
  end.
End StatusEffectEventsRegionBehaviorType.

Definition applyEffectToActor (game : Game) (effect : option ActiveEffect.t)
    (actor : Actor) (behavior : RegionBehavior) : Run EffectCall unit :=
  match findByOrigin actor (behaviorUuid behavior) with
  | Some (i, _) =>
      _ ← readProperty "constructor" effect;
      call (updateEffect i {| changeDuration := Some (getInitialDuration game);
                              changeDisabled := Some false |})
  | None =>
      e ← readProperty "toObject" effect;
      call (createEffect
              {| ActiveEffect.name := ActiveEffect.name e;
                 ActiveEffect.origin := Some (behaviorUuid behavior);
                 ActiveEffect.disabled := false;
                 ActiveEffect.transfer := false;
                 ActiveEffect.duration := ActiveEffect.duration e;
                 ActiveEffect.extra := ActiveEffect.extra e |})
  end.

Module ActiveEffectRegionBehaviorType.
Record t := {
  uuid : option string;
  disable : bool;
  parent : RegionBehavior;
}.

(** The [behavior] getter of [RegionBehaviorType]. *)
Definition behavior (this : t) : RegionBehavior := parent this.

Definition onTokenEnter (game : Game) (this : t) (event : RegionEvent)
    : Run EffectCall unit :=
  match eventActor event, truthy (uuid this) with
  | Some actor, Some _ =>
      if negb (isSelf (user event)) then ret tt
      else
        let effect := fromUuid game (uuid this) in
        detach (applyEffectToActor game effect actor (behavior this))
  | _, _ => ret tt
  end.

Definition onTokenExit (this : t) (event : RegionEvent) : Run EffectCall unit :=
  match eventActor event, truthy (uuid this) with
  | Some actor, Some _ =>
      if negb (isSelf (user event)) then ret tt
      else
        match findByOrigin actor (behaviorUuid (behavior this)) with
        | Some (i, _) =>
            if disable this
            then detach (call (updateEffect i {| changeDuration := None;
                                                 changeDisabled := Some true |}))
            else detach (call (deleteEffect i))
        | None => ret tt
        end
  | _, _ => ret tt
  end.
End ActiveEffectRegionBehaviorType.

Module ActiveEffectEventsRegionBehaviorType.
Record t := {
  action : option string;
  uuid : option string;
  name : option string;
  parent : RegionBehavior;
}.

(** The keys of the candidate data that [validateJoint] reads. *)
Record Data := {
  dataAction : option string;
  dataUuid : option string;
  dataName : option string;
}.

Definition validateJoint (data : Data) : Completion unit :=
  if includes ["add"; "resetDuration"] (dataAction data) && falsy (dataUuid data)
  then Throw (Error ("The uuid field is required for the "
                       +:+ interpolate (dataAction data) +:+ " action"))
  else if includes ["enable"; "disable"; "delete"] (dataAction data)
          && falsy (dataName data)
  then Throw (Error ("The name field is required for the "
                       +:+ interpolate (dataAction data) +:+ " action"))
  else Normal tt.

Definition onResetDuration (game : Game) (this : t) (actor : Actor)
    : Run EffectCall unit :=
  let effect := fromUuid game (uuid this) in
  e ← readProperty "name" effect;
  match getName actor (Some (ActiveEffect.name e)) with
  | Some (i, _) =>
      call (updateEffect i {| changeDuration := Some (getInitialDuration game);
                              changeDisabled := None |})
  | None => ret tt
  end.

Definition onEnableDisable (this : t) (actor : Actor) (disabled : bool)
    : Run EffectCall unit :=
  match getName actor (name this) with
  | Some (i, _) =>
      call (updateEffect i {| changeDuration := None;
                              changeDisabled := Some disabled |})
  | None => ret tt
  end.

Definition isActiveGM (game : Game) : bool :=
  from_option isSelf false (activeGM game).

Definition _handleRegionEvent (game : Game) (this : t) (event : RegionEvent)
    : Run EffectCall unit :=
  match eventActor event with
  | None => ret tt
  | Some actor =>
      if negb (isActiveGM game) then ret tt
      else
        if caseOf (action this) "add" then
          let effect := fromUuid game (uuid this) in
          detach (applyEffectToActor game effect actor (parent this))
        else if caseOf (action this) "resetDuration" then
          detach (onResetDuration game this actor)
        else if caseOf (action this) "enable" then
          detach (onEnableDisable this actor false)
        else if caseOf (action this) "disable" then
          detach (onEnableDisable this actor true)
        else if caseOf (action this) "delete" then
          match getName actor (name this) with
          | Some (i, _) => call (deleteEffect i)
          | None => ret tt
          end
        else ret tt
  end.
End ActiveEffectEventsRegionBehaviorType.

(** ** The handlers that act on active-effect documents

    The entries the module registers for the two active-effect behaviours:
    the [events] table of [ActiveEffectRegionBehaviorType] and the single
    handler of [ActiveEffectEventsRegionBehaviorType]. *)

Inductive Handler :=
| ActiveEffectTokenEnter (this : ActiveEffectRegionBehaviorType.t)
| ActiveEffectTokenExit (this : ActiveEffectRegionBehaviorType.t)
| ActiveEffectEvents (this : ActiveEffectEventsRegionBehaviorType.t).

Definition handle (game : Game) (h : Handler) (event : RegionEvent)
    : Run EffectCall unit :=
  match h with
  | ActiveEffectTokenEnter this =>
      ActiveEffectRegionBehaviorType.onTokenEnter game this event
  | ActiveEffectTokenExit this =>
      ActiveEffectRegionBehaviorType.onTokenExit this event
  | ActiveEffectEvents this =>
      ActiveEffectEventsRegionBehaviorType._handleRegionEvent game this event
  end.

(** The behaviour document a handler belongs to, and its configured uuid. *)
Definition handlerBehavior (h : Handler) : RegionBehavior :=
  match h with
  | ActiveEffectTokenEnter this => ActiveEffectRegionBehaviorType.behavior this
  | ActiveEffectTokenExit this => ActiveEffectRegionBehaviorType.behavior this
  | ActiveEffectEvents this => ActiveEffectEventsRegionBehaviorType.parent this
  end.

Definition handlerUuid (h : Handler) : option string :=
  match h with
  | ActiveEffectTokenEnter this => ActiveEffectRegionBehaviorType.uuid this
  | ActiveEffectTokenExit this => ActiveEffectRegionBehaviorType.uuid this
  | ActiveEffectEvents this => ActiveEffectEventsRegionBehaviorType.uuid this
  end.

(** The handler is a token-enter handler whose guards pass (uuid configured,
    triggering user is self), or the events handler with action "add" on the
    client of the active GM. *)
Definition appliesEffect (game : Game) (h : Handler) (event : RegionEvent) : bool :=
  match h with
  | ActiveEffectTokenEnter this =>
      negb (falsy (ActiveEffectRegionBehaviorType.uuid this))
      && isSelf (user event)
  | ActiveEffectTokenExit _ => false
  | ActiveEffectEvents this =>
      ActiveEffectEventsRegionBehaviorType.isActiveGM game
      && bool_decide (ActiveEffectEventsRegionBehaviorType.action this = Some "add")
  end.

(** As [appliesEffect], with action "resetDuration" as well: the cases in
    which the handler resolves a template document by uuid. *)
Definition resolvesTemplate (game : Game) (h : Handler) (event : RegionEvent) : bool :=
  appliesEffect game h event
  || match h with
     | ActiveEffectEvents this =>
         ActiveEffectEventsRegionBehaviorType.isActiveGM game
         && bool_decide (ActiveEffectEventsRegionBehaviorType.action this
                         = Some "resetDuration")
     | _ => false
     end.

(** The number of the actor's effects that came from a behaviour. *)
Definition effectsFrom (uuid : string) (a : Actor) : nat :=
  length (filter (λ e, ActiveEffect.origin e = Some uuid) (effects a)).

(** ** A small scene

    A template effect "Bless" that is stored disabled and with the transfer
    flag, a behaviour that refers to it, and tokens with and without the
    effect from that behaviour. *)

Module Scene.
Definition templateUuid : string := "Item.i.ActiveEffect.e".

Definition behavior : RegionBehavior :=
  {| behaviorUuid := "Scene.a.Region.b.RegionBehavior.c" |}.

Definition bless : ActiveEffect.t :=
  {| ActiveEffect.name := "Bless";
     ActiveEffect.origin := Some "Item.i";
     ActiveEffect.disabled := true;
     ActiveEffect.transfer := true;
     ActiveEffect.duration :=
       {| seconds := Some 60%Z; rounds := None; turns := None;
          startTime := Some 0%Z; startRound := None; startTurn := None |};
     ActiveEffect.extra := [("img", "icons/bless.webp")] |}.

(** "Bless" as [applyEffectToActor] puts it on an actor, later disabled. *)
Definition applied : ActiveEffect.t :=
  {| ActiveEffect.name := "Bless";
     ActiveEffect.origin := Some (behaviorUuid behavior);
     ActiveEffect.disabled := true;
     ActiveEffect.transfer := false;
     ActiveEffect.duration := ActiveEffect.duration bless;
     ActiveEffect.extra := ActiveEffect.extra bless |}.

Definition rage : ActiveEffect.t :=
  {| ActiveEffect.name := "Rage";
     ActiveEffect.origin := None;
     ActiveEffect.disabled := false;
     ActiveEffect.transfer := false;
     ActiveEffect.duration :=
       {| seconds := None; rounds := Some 10%Z; turns := None;
          startTime := Some 5%Z; startRound := Some 1%Z; startTurn := Some 0%Z |};
     ActiveEffect.extra := [] |}.

Definition now : InitialDuration :=
  {| initStartTime := Some 120%Z; initStartRound := Some 3%Z; initStartTurn := Some 1%Z |}.

(** The client of the active GM, with the template in the world. *)
Definition game : Game :=
  {| documents := {[ templateUuid := bless ]};
     activeGM := Some {| isSelf := true |};
     getInitialDuration := now |}.

(** The same client after the template was deleted. *)
Definition gameWithoutTemplate : Game :=
  {| documents := ∅;
     activeGM := Some {| isSelf := true |};
     getInitialDuration := now |}.

(** A client on which another participant is the active GM. *)
Definition otherClient : Game :=
  {| documents := {[ templateUuid := bless ]};
     activeGM := Some {| isSelf := false |};
     getInitialDuration := now |}.

Definition eventOn (a : option Actor) : RegionEvent :=
  {| data := Some {| token := Some {| actor := a |} |};
     user := {| isSelf := true |} |}.

Definition activeEffect (disable : bool) : ActiveEffectRegionBehaviorType.t :=
  {| ActiveEffectRegionBehaviorType.uuid := Some templateUuid;
     ActiveEffectRegionBehaviorType.disable := disable;
     ActiveEffectRegionBehaviorType.parent := behavior |}.

Definition activeEffectEvents (action : string) : ActiveEffectEventsRegionBehaviorType.t :=
  {| ActiveEffectEventsRegionBehaviorType.action := Some action;
     ActiveEffectEventsRegionBehaviorType.uuid := Some templateUuid;
     ActiveEffectEventsRegionBehaviorType.name := Some "Rage";
     ActiveEffectEventsRegionBehaviorType.parent := behavior |}.
End Scene.

(** ** Registration at init *)



(** The classes found in [CONFIG.RegionBehavior.dataModels]: the four of
    this module and those of the host or of other modules. *)
Inductive DataModel :=
| StatusEffectRegionBehaviorTypeClass
| StatusEffectEventsRegionBehaviorTypeClass
| ActiveEffectRegionBehaviorTypeClass
| ActiveEffectEventsRegionBehaviorTypeClass
| OtherDataModel (className : string).

(** The arguments of a [DocumentSheetConfig.registerSheet] call for
    [RegionBehavior] with the host's [RegionBehaviorConfig] sheet. *)
Record SheetRegistration := {
  sheetScope : string;
  sheetTypes : list string;
  sheetMakeDefault : bool;
}.

Record Config := {
  dataModels : gmap string DataModel;
  registeredSheets : list SheetRegistration;
}.

(** [Object.assign(target, source)], the source given by its entries in
    order. *)
Definition objectAssign {V} (target : gmap string V) (source : list (string * V))
    : gmap string V :=
  foldl (λ obj kv, <[kv.1 := kv.2]> obj) target source.

(** The callback of [Hooks.once("init", ...)]. *)
Definition onInit (config : Config) : Config :=
  {| dataModels :=
       objectAssign (dataModels config)
         [("region-active-effects.statusEffect", StatusEffectRegionBehaviorTypeClass);
          ("region-active-effects.statusEffectEvents",
           StatusEffectEventsRegionBehaviorTypeClass);
          ("region-active-effects.activeEffect", ActiveEffectRegionBehaviorTypeClass);
          ("region-active-effects.activeEffectEvents",
           ActiveEffectEventsRegionBehaviorTypeClass)];
     registeredSheets :=
       registeredSheets config ++
       [{| sheetScope := "region-active-effects";
           sheetTypes := ["region-active-effects.statusEffect";
                          "region-active-effects.statusEffectEvents";
                          "region-active-effects.activeEffect";
                          "region-active-effects.activeEffectEvents"];
           sheetMakeDefault := true |}] |}.

(** The document of the actor's collection that a call acts on. *)
Definition callTarget (c : EffectCall) : option nat :=
  match c with
  | createEffect _ => None
  | updateEffect i _ => Some i
  | deleteEffect i => Some i
  end.

(** * Properties *)

(** ** Bookkeeping for runs *)

Lemma falsy_truthy (v : option string) : falsy v = true ↔ truthy v = None.
Proof.
  destruct v as [s|]; simpl; [|done].
  case_bool_decide; split; done.
Qed.

Lemma truthy_Some (v : option string) (s : string) :
  truthy v = Some s ↔ v = Some s ∧ s ≠ "".
Proof.
  destruct v as [s'|]; simpl.
  - case_bool_decide; split.
    + done.
    + intros [[= ->] ?]. done.
    + intros [= ->]. done.
    + intros [[= ->] _]. done.
  - split; [done | intros [? _]; done].
Qed.

Lemma truthy_not_falsy (v : option string) :
  falsy v = false → ∃ s, truthy v = Some s ∧ v = Some s.
Proof.
  destruct v as [s|]; simpl; [|done].
  case_bool_decide; [done|]. eauto.
Qed.

Lemma readProperty_Some {C A B} (prop : string) (a : A) (k : A → Run C B) :
  readProperty prop (Some a) ≫= k = k a.
Proof.
  unfold mbind, run_bind, bind, readProperty, ret. simpl.
  by destruct (k a) as [cs rs [b | err]].
Qed.

Lemma readProperty_None {C A B} (prop : string) (k : A → Run C B) :
  readProperty prop None ≫= k
  = throw (TypeError ("Cannot read properties of null (reading '" +:+ prop +:+ "')")).
Proof. reflexivity. Qed.

Lemma performAll_call (c : EffectCall) (a : Actor) :
  performAll (calls (detach (call c))) a = perform c a.
Proof. reflexivity. Qed.

Lemma effects_update (i : nat) (ch : Changes) (a : Actor) :
  effects (perform (updateEffect i ch) a) = alter (applyChanges ch) i (effects a).
Proof. reflexivity. Qed.

Lemma effects_create (d : ActiveEffect.t) (a : Actor) :
  effects (perform (createEffect d) a) = effects a ++ [d].
Proof. reflexivity. Qed.

Lemma effects_delete (i : nat) (a : Actor) :
  effects (perform (deleteEffect i) a) = delete i (effects a).
Proof. reflexivity. Qed.

Lemma isActiveGM_false (game : Game) :
  ActiveEffectEventsRegionBehaviorType.isActiveGM game = false ↔
  activeGM game = None ∨ ∃ u, activeGM game = Some u ∧ isSelf u = false.
Proof.
  unfold ActiveEffectEventsRegionBehaviorType.isActiveGM.
  destruct (activeGM game) as [u|]; simpl; split.
  - intros Hu. right. eauto.
  - intros [? | (u' & [= <-] & Hu)]; done.
  - intros _. by left.
  - done.
Qed.

(** ** validateJoint *)

(** C3: [validateJoint] throws exactly when the action is add or
    resetDuration and the uuid is missing, or the action is enable, disable
    or delete and the name is missing; the error names the missing field and
    the action; action add with a uuid and action delete with a name are
    accepted. *)
Theorem validateJoint_rejects_iff (d : ActiveEffectEventsRegionBehaviorType.Data) :
  let action := ActiveEffectEventsRegionBehaviorType.dataAction d in
  let uuid := ActiveEffectEventsRegionBehaviorType.dataUuid d in
  let name := ActiveEffectEventsRegionBehaviorType.dataName d in
  let result := ActiveEffectEventsRegionBehaviorType.validateJoint d in
  ((∃ e, result = Throw e) ↔
     ((action = Some "add" ∨ action = Some "resetDuration") ∧ falsy uuid = true)
     ∨ ((action = Some "enable" ∨ action = Some "disable" ∨ action = Some "delete")
        ∧ falsy name = true))
  ∧ (∀ e, result = Throw e →
       ∃ a field, action = Some a ∧ (field = "uuid" ∨ field = "name")
         ∧ e = Error ("The " +:+ field +:+ " field is required for the " +:+ a +:+ " action"))
  ∧ (action = Some "add" ∧ falsy uuid = false → result = Normal tt)
  ∧ (action = Some "delete" ∧ falsy name = false → result = Normal tt).
Proof.
  destruct d as [action uuid name]; simpl.
  unfold ActiveEffectEventsRegionBehaviorType.validateJoint; simpl.
  destruct action as [a|]; simpl; [| naive_solver].
  destruct (decide (a = "add")) as [-> | Hadd];
    [| destruct (decide (a = "resetDuration")) as [-> | Hreset]].
  1,2: replace (bool_decide (_ ∈ ["add"; "resetDuration"])) with true by done;
       replace (bool_decide (_ ∈ ["enable"; "disable"; "delete"])) with false by done;
       destruct (falsy uuid); simpl; naive_solver.
  rewrite (bool_decide_eq_false_2 (a ∈ ["add"; "resetDuration"])) by set_solver.
  simpl.
  destruct (decide (a = "enable")) as [-> | Henable];
    [| destruct (decide (a = "disable")) as [-> | Hdisable];
       [| destruct (decide (a = "delete")) as [-> | Hdelete]]].
  1,2,3: replace (bool_decide (_ ∈ ["enable"; "disable"; "delete"])) with true by done;
         destruct (falsy name); simpl; naive_solver.
  rewrite (bool_decide_eq_false_2 (a ∈ ["enable"; "disable"; "delete"])) by set_solver.
  simpl. naive_solver.
Qed.

(** ** The status-effect behaviours *)

Section StatusEffect.
Import StatusEffectRegionBehaviorType.

(** C6: with a target actor, a configured status id and the triggering
    user being self, token-enter toggles the status with active true and
    the configured overlay, and token-exit toggles it with active false and
    no overlay key; in every other case both handlers do nothing. *)
Theorem statusEffect_enter_exit (this : t) (event : RegionEvent) :
  (∀ sid, eventActor event ≠ None → statusId this = Some sid → sid ≠ "" →
          isSelf (user event) = true →
     onTokenEnter this event
       = call (toggleStatusEffect sid {| toggleActive := Some true;
                                         toggleOverlay := Some (overlay this) |})
     ∧ onTokenExit this event
       = call (toggleStatusEffect sid {| toggleActive := Some false;
                                         toggleOverlay := None |}))
  ∧ (eventActor event = None ∨ falsy (statusId this) = true
     ∨ isSelf (user event) = false →
     onTokenEnter this event = ret tt ∧ onTokenExit this event = ret tt).
Proof.
  unfold onTokenEnter, onTokenExit. split.
  - intros sid Hactor Hsid Hne Hself.
    destruct (eventActor event) as [a|]; [|done].
    assert (truthy (statusId this) = Some sid) as -> by by apply truthy_Some.
    by rewrite Hself.
  - intros [-> | [Hfalsy | Hother]]; [done | |].
    + apply falsy_truthy in Hfalsy. rewrite Hfalsy.
      by destruct (eventActor event).
    + rewrite Hother. simpl.
      by destruct (eventActor event), (truthy (statusId this)).
Qed.
End StatusEffect.

Lemma statusEffect_enter_exit_witness :
  let this := {| StatusEffectRegionBehaviorType.statusId := Some "prone";
                 StatusEffectRegionBehaviorType.overlay := true |} in
  let event := {| data := Some {| token := Some {| actor := Some {| effects := [] |} |} |};
                  user := {| isSelf := true |} |} in
  calls (StatusEffectRegionBehaviorType.onTokenEnter this event)
    = [toggleStatusEffect "prone" {| toggleActive := Some true; toggleOverlay := Some true |}]
  ∧ calls (StatusEffectRegionBehaviorType.onTokenExit this event)
    = [toggleStatusEffect "prone" {| toggleActive := Some false; toggleOverlay := None |}].
Proof.
  intros this event.
  destruct (proj1 (statusEffect_enter_exit this event) "prone") as [-> ->];
    [done | reflexivity | done | reflexivity |].
  split; reflexivity.
Defined.

Section StatusEffectEvents.
Import StatusEffectEventsRegionBehaviorType.

(** C7: the events handler maps action apply to active true, remove to
    active false and toggle to no active value, and it toggles whenever an
    actor and a status id are present, whoever the triggering user is. *)
Theorem statusEffectEvents_toggle (this : t) (event : RegionEvent)
    (a : Actor) (sid : string) :
  eventActor event = Some a → statusId this = Some sid → sid ≠ "" →
  _handleRegionEvent this event
    = call (toggleStatusEffect sid {| toggleActive := active this;
                                      toggleOverlay := Some (overlay this) |})
  ∧ (action this = "apply" → active this = Some true)
  ∧ (action this = "remove" → active this = Some false)
  ∧ (action this = "toggle" → active this = None)
  ∧ (∀ u, _handleRegionEvent this {| data := data event; user := u |}
          = _handleRegionEvent this event).
Proof.
  intros Hactor Hsid Hne. unfold _handleRegionEvent, active.
  assert (truthy (statusId this) = Some sid) as -> by by apply truthy_Some.
  rewrite Hactor. split; [done|].
  repeat split.
  - by intros ->.
  - by intros ->.
  - by intros ->.
  - intros u. unfold eventActor in *. simpl. by rewrite Hactor.
Qed.
End StatusEffectEvents.

Lemma statusEffectEvents_toggle_witness :
  let this := {| StatusEffectEventsRegionBehaviorType.statusId := Some "prone";
                 StatusEffectEventsRegionBehaviorType.action := "toggle";
                 StatusEffectEventsRegionBehaviorType.overlay := false |} in
  let event := {| data := Some {| token := Some {| actor := Some {| effects := [] |} |} |};
                  user := {| isSelf := false |} |} in
  StatusEffectEventsRegionBehaviorType._handleRegionEvent this event
    = call (toggleStatusEffect "prone" {| toggleActive := None;
                                          toggleOverlay := Some false |}).
Proof.
  intros this event.
  destruct (statusEffectEvents_toggle this event {| effects := [] |} "prone")
    as (-> & _ & _ & Htoggle & _); [reflexivity | reflexivity | done |].
  by rewrite Htoggle.
Defined.

(** ** Guards shared by the handlers *)

(** C8: with no target actor on the event, each handler of the four
    behaviours issues no host call, throws nothing and leaves no rejected
    promise behind. *)
Theorem missing_actor_noop (game : Game) (event : RegionEvent)
    (se : StatusEffectRegionBehaviorType.t)
    (see : StatusEffectEventsRegionBehaviorType.t)
    (ae : ActiveEffectRegionBehaviorType.t)
    (aee : ActiveEffectEventsRegionBehaviorType.t) :
  eventActor event = None →
  StatusEffectRegionBehaviorType.onTokenEnter se event = ret tt
  ∧ StatusEffectRegionBehaviorType.onTokenExit se event = ret tt
  ∧ StatusEffectEventsRegionBehaviorType._handleRegionEvent see event = ret tt
  ∧ ActiveEffectRegionBehaviorType.onTokenEnter game ae event = ret tt
  ∧ ActiveEffectRegionBehaviorType.onTokenExit ae event = ret tt
  ∧ ActiveEffectEventsRegionBehaviorType._handleRegionEvent game aee event = ret tt.
Proof.
  intros Hactor.
  unfold StatusEffectRegionBehaviorType.onTokenEnter,
    StatusEffectRegionBehaviorType.onTokenExit,
    StatusEffectEventsRegionBehaviorType._handleRegionEvent,
    ActiveEffectRegionBehaviorType.onTokenEnter,
    ActiveEffectRegionBehaviorType.onTokenExit,
    ActiveEffectEventsRegionBehaviorType._handleRegionEvent.
  rewrite Hactor. done.
Qed.

(** C5: when there is no active GM, or the active GM is another
    participant, the events handler issues no create, update or delete. *)
Theorem activeGM_gate (game : Game)
    (this : ActiveEffectEventsRegionBehaviorType.t) (event : RegionEvent) :
  activeGM game = None ∨ (∃ u, activeGM game = Some u ∧ isSelf u = false) →
  ActiveEffectEventsRegionBehaviorType._handleRegionEvent game this event = ret tt.
Proof.
  intros Hgm. apply isActiveGM_false in Hgm.
  unfold ActiveEffectEventsRegionBehaviorType._handleRegionEvent.
  rewrite Hgm. by destruct (eventActor event).
Qed.

Lemma missing_actor_noop_witness :
  ActiveEffectRegionBehaviorType.onTokenEnter Scene.game (Scene.activeEffect false)
    (Scene.eventOn None) = ret tt
  ∧ ActiveEffectEventsRegionBehaviorType._handleRegionEvent Scene.game
      (Scene.activeEffectEvents "delete") (Scene.eventOn None) = ret tt.
Proof.
  destruct (missing_actor_noop Scene.game (Scene.eventOn None)
       {| StatusEffectRegionBehaviorType.statusId := Some "prone";
          StatusEffectRegionBehaviorType.overlay := false |}
       {| StatusEffectEventsRegionBehaviorType.statusId := Some "prone";
          StatusEffectEventsRegionBehaviorType.action := "apply";
          StatusEffectEventsRegionBehaviorType.overlay := false |}
       (Scene.activeEffect false)
       (Scene.activeEffectEvents "delete")
       eq_refl) as (_ & _ & _ & Henter & _ & Hevents).
  exact (conj Henter Hevents).
Defined.

Lemma activeGM_gate_witness :
  ActiveEffectEventsRegionBehaviorType._handleRegionEvent Scene.otherClient
    (Scene.activeEffectEvents "delete")
    (Scene.eventOn (Some {| effects := [Scene.rage] |})) = ret tt.
Proof.
  apply activeGM_gate. right. exists {| isSelf := false |}. split; reflexivity.
Defined.

(** ** applyEffectToActor and the handlers that use it *)

Lemma applyEffectToActor_existing (game : Game) (effect : ActiveEffect.t)
    (actor : Actor) (behavior : RegionBehavior) (i : nat) (e : ActiveEffect.t) :
  findByOrigin actor (behaviorUuid behavior) = Some (i, e) →
  applyEffectToActor game (Some effect) actor behavior
    = call (updateEffect i {| changeDuration := Some (getInitialDuration game);
                              changeDisabled := Some false |}).
Proof. intros Hfind. unfold applyEffectToActor. by rewrite Hfind. Qed.

Lemma applyEffectToActor_new (game : Game) (effect : ActiveEffect.t)
    (actor : Actor) (behavior : RegionBehavior) :
  findByOrigin actor (behaviorUuid behavior) = None →
  applyEffectToActor game (Some effect) actor behavior
    = call (createEffect
              {| ActiveEffect.name := ActiveEffect.name effect;
                 ActiveEffect.origin := Some (behaviorUuid behavior);
                 ActiveEffect.disabled := false;
                 ActiveEffect.transfer := false;
                 ActiveEffect.duration := ActiveEffect.duration effect;
                 ActiveEffect.extra := ActiveEffect.extra effect |}).
Proof. intros Hfind. unfold applyEffectToActor. by rewrite Hfind. Qed.

Lemma applyEffectToActor_null (game : Game) (actor : Actor) (behavior : RegionBehavior) :
  ∃ prop,
    applyEffectToActor game None actor behavior
      = throw (TypeError ("Cannot read properties of null (reading '" +:+ prop +:+ "')")).
Proof.
  unfold applyEffectToActor.
  destruct (findByOrigin actor (behaviorUuid behavior)) as [[i e]|]; eauto.
Qed.

Lemma handle_appliesEffect (game : Game) (h : Handler) (event : RegionEvent)
    (actor : Actor) :
  eventActor event = Some actor → appliesEffect game h event = true →
  handle game h event
    = detach (applyEffectToActor game (fromUuid game (handlerUuid h)) actor
                (handlerBehavior h)).
Proof.
  intros Hactor Happlies. destruct h as [this | this | this]; simpl in *.
  - apply andb_true_iff in Happlies as [Huuid Hself].
    apply negb_true_iff, truthy_not_falsy in Huuid as (s & Hs & _).
    unfold ActiveEffectRegionBehaviorType.onTokenEnter.
    by rewrite Hactor, Hs, Hself.
  - done.
  - apply andb_true_iff in Happlies as [Hgm Hadd].
    unfold ActiveEffectEventsRegionBehaviorType._handleRegionEvent, caseOf.
    by rewrite Hactor, Hgm, Hadd.
Qed.

Lemma findByOrigin_lookup (a : Actor) (uuid : string) (i : nat) (e : ActiveEffect.t) :
  findByOrigin a uuid = Some (i, e) →
  effects a !! i = Some e ∧ ActiveEffect.origin e = Some uuid.
Proof. intros Hfind. apply list_find_Some in Hfind. tauto. Qed.

Lemma findByOrigin_created (a : Actor) (uuid : string) (d : ActiveEffect.t) :
  findByOrigin a uuid = None → ActiveEffect.origin d = Some uuid →
  findByOrigin (perform (createEffect d) a) uuid = Some (length (effects a), d).
Proof.
  unfold findByOrigin. intros Hnone Horigin. simpl.
  rewrite list_find_app_r by done. simpl.
  by rewrite decide_True.
Qed.

Lemma effectsFrom_none (a : Actor) (uuid : string) :
  findByOrigin a uuid = None → effectsFrom uuid a = 0.
Proof.
  unfold findByOrigin, effectsFrom. intros Hnone.
  apply list_find_None in Hnone.
  induction Hnone as [| e l He _ IH]; [done|].
  by rewrite filter_cons_False.
Qed.

Lemma list_find_alter_index {A} (P : A → Prop) `{∀ x, Decision (P x)}
    (f : A → A) (l : list A) (i : nat) :
  (∀ x, P (f x) ↔ P x) →
  fst <$> list_find P (alter f i l) = fst <$> list_find P l.
Proof.
  intros Hf. revert i. induction l as [| x l IH]; intros i; [done|].
  destruct i as [| i]; simpl.
  - destruct (decide (P x)) as [Hx | Hx].
    + by rewrite decide_True by by apply Hf.
    + by rewrite decide_False by by rewrite Hf.
  - destruct (decide (P x)); [done|].
    specialize (IH i). change (list_alter f i l) with (alter f i l).
    destruct (list_find P (alter f i l)) as [[? ?]|],
             (list_find P l) as [[? ?]|]; simpl in *; congruence.
Qed.

Lemma findByOrigin_updated (a : Actor) (uuid : string) (i j : nat)
    (ch : Changes) (e : ActiveEffect.t) :
  findByOrigin a uuid = Some (i, e) →
  ∃ e', findByOrigin (perform (updateEffect j ch) a) uuid = Some (i, e').
Proof.
  unfold findByOrigin. intros Hfind. simpl.
  assert (Hfst : fst <$> list_find (λ e, ActiveEffect.origin e = Some uuid)
                           (alter (applyChanges ch) j (effects a)) = Some i).
  { rewrite list_find_alter_index by done. by rewrite Hfind. }
  destruct (list_find _ (alter _ _ _)) as [[i' e']|]; [|done].
  exists e'. simpl in Hfst. congruence.
Qed.

(** C1: when a handler that applies an effect runs (token-enter under its
    guards, or the events handler with action add) and the template
    resolves, an existing effect from this behaviour is updated (enabled,
    duration start reset) and nothing is created; a document is created only
    when there is none.  So two runs in sequence leave exactly one effect
    from this behaviour, the second run updating what the first created. *)
Theorem enter_twice_one_document (game1 game2 : Game) (h : Handler)
    (event1 event2 : RegionEvent) (actor : Actor) (tmpl1 tmpl2 : ActiveEffect.t) :
  let uuid := behaviorUuid (handlerBehavior h) in
  let run1 := handle game1 h event1 in
  let actor1 := performAll (calls run1) actor in
  let run2 := handle game2 h event2 in
  let actor2 := performAll (calls run2) actor1 in
  let refresh game := {| changeDuration := Some (getInitialDuration game);
                         changeDisabled := Some false |} in
  eventActor event1 = Some actor → appliesEffect game1 h event1 = true →
  fromUuid game1 (handlerUuid h) = Some tmpl1 →
  eventActor event2 = Some actor1 → appliesEffect game2 h event2 = true →
  fromUuid game2 (handlerUuid h) = Some tmpl2 →
  match findByOrigin actor uuid with
  | Some (i, _) =>
      run1 = call (updateEffect i (refresh game1))
      ∧ run2 = call (updateEffect i (refresh game2))
      ∧ length (effects actor2) = length (effects actor)
  | None =>
      ∃ d, run1 = call (createEffect d)
        ∧ effects actor1 = effects actor ++ [d]
        ∧ run2 = call (updateEffect (length (effects actor)) (refresh game2))
        ∧ effects actor2 = effects actor ++ [applyChanges (refresh game2) d]
        ∧ effectsFrom uuid actor = 0
        ∧ effectsFrom uuid actor1 = 1
        ∧ effectsFrom uuid actor2 = 1
  end.
Proof.
  intros uuid run1 actor1 run2 actor2 refresh
         Hactor1 Happ1 Htmpl1 Hactor2 Happ2 Htmpl2.
  subst run1 run2 actor2 actor1.
  rewrite (handle_appliesEffect _ _ _ _ Hactor2 Happ2), Htmpl2.
  clear Hactor2.
  rewrite (handle_appliesEffect _ _ _ _ Hactor1 Happ1), Htmpl1.
  fold uuid.
  destruct (findByOrigin actor uuid) as [[i e]|] eqn:Hfind.
  - rewrite (applyEffectToActor_existing _ _ _ _ _ _ Hfind), performAll_call.
    destruct (findByOrigin_updated _ _ _ i (refresh game1) _ Hfind) as [e' Hfind'].
    rewrite (applyEffectToActor_existing _ _ _ _ _ _ Hfind'), performAll_call.
    by rewrite !effects_update, !length_alter.
  - rewrite (applyEffectToActor_new _ _ _ _ Hfind), performAll_call.
    eexists. split; [reflexivity|]. split; [reflexivity|].
    match goal with
    | |- context [createEffect ?d] =>
        pose proof (findByOrigin_created actor uuid d Hfind eq_refl) as Hfind'
    end.
    rewrite (applyEffectToActor_existing _ _ _ _ _ _ Hfind'), performAll_call.
    pose proof (effectsFrom_none _ _ Hfind) as Hzero.
    unfold effectsFrom in *.
    rewrite !effects_update, !effects_create.
    rewrite alter_app_r_alt, Nat.sub_diag by done.
    rewrite !filter_app, !length_app, Hzero.
    change (alter ?f 0 [?d]) with [f d].
    rewrite !filter_cons_True by done.
    done.
Qed.

Lemma enter_twice_one_document_witness :
  let h := ActiveEffectTokenEnter (Scene.activeEffect false) in
  let actor := {| effects := [Scene.rage] |} in
  let run1 := handle Scene.game h (Scene.eventOn (Some actor)) in
  let actor1 := performAll (calls run1) actor in
  let run2 := handle Scene.game h (Scene.eventOn (Some actor1)) in
  let actor2 := performAll (calls run2) actor1 in
  (∃ d, calls run1 = [createEffect d])
  ∧ calls run2 = [updateEffect 1 {| changeDuration := Some Scene.now;
                                    changeDisabled := Some false |}]
  ∧ length (effects actor2) = 2
  ∧ effectsFrom (behaviorUuid Scene.behavior) actor2 = 1.
Proof.
  intros h actor run1 actor1 run2 actor2.
  pose proof (enter_twice_one_document Scene.game Scene.game h
                (Scene.eventOn (Some actor)) (Scene.eventOn (Some actor1)) actor
                Scene.bless Scene.bless
                eq_refl eq_refl eq_refl eq_refl eq_refl eq_refl) as Hboth.
  change (findByOrigin actor (behaviorUuid (handlerBehavior h))) with
    (@None (nat * ActiveEffect.t)) in Hboth.
  destruct Hboth as (d & Hrun1 & _ & Hrun2 & Heffects & _ & _ & Hone).
  subst run1 run2 actor2 actor1.
  split; [exists d; by rewrite Hrun1|].
  split; [by rewrite Hrun2|].
  split; [by rewrite Heffects | exact Hone].
Defined.

(** ** Token exit *)

(** C4: on token-exit with the guards passed and an effect from this
    behaviour on the actor, a set disable flag makes the handler update that
    effect to disabled and the document stays in the collection; otherwise
    the handler deletes the document. *)
Theorem tokenExit_disable_or_delete (this : ActiveEffectRegionBehaviorType.t)
    (event : RegionEvent) (actor : Actor) (i : nat) (e : ActiveEffect.t) :
  let run := ActiveEffectRegionBehaviorType.onTokenExit this event in
  let actor' := performAll (calls run) actor in
  eventActor event = Some actor →
  falsy (ActiveEffectRegionBehaviorType.uuid this) = false →
  isSelf (user event) = true →
  findByOrigin actor (behaviorUuid (ActiveEffectRegionBehaviorType.behavior this))
    = Some (i, e) →
  if ActiveEffectRegionBehaviorType.disable this
  then run = call (updateEffect i {| changeDuration := None;
                                     changeDisabled := Some true |})
       ∧ effects actor' !! i
         = Some {| ActiveEffect.name := ActiveEffect.name e;
                   ActiveEffect.origin := ActiveEffect.origin e;
                   ActiveEffect.disabled := true;
                   ActiveEffect.transfer := ActiveEffect.transfer e;
                   ActiveEffect.duration := ActiveEffect.duration e;
                   ActiveEffect.extra := ActiveEffect.extra e |}
       ∧ (∀ j, j ≠ i → effects actor' !! j = effects actor !! j)
       ∧ length (effects actor') = length (effects actor)
  else run = call (deleteEffect i)
       ∧ effects actor' = delete i (effects actor)
       ∧ S (length (effects actor')) = length (effects actor).
Proof.
  intros run actor' Hactor Huuid Hself Hfind. subst actor' run.
  apply truthy_not_falsy in Huuid as (s & Hs & _).
  unfold ActiveEffectRegionBehaviorType.onTokenExit.
  rewrite Hactor, Hs, Hself, Hfind. simpl negb. cbv iota.
  apply findByOrigin_lookup in Hfind as [Hlookup _].
  destruct (ActiveEffectRegionBehaviorType.disable this).
  - rewrite performAll_call, effects_update.
    split; [done|]. split; [|split].
    + by rewrite list_lookup_alter_eq, Hlookup.
    + intros j Hj. by rewrite list_lookup_alter_ne.
    + apply length_alter.
  - rewrite performAll_call, effects_delete.
    split; [done|]. split; [done|].
    rewrite length_delete by eauto.
    apply lookup_lt_Some in Hlookup. lia.
Qed.

Lemma tokenExit_disable_or_delete_witness :
  let actor := {| effects := [Scene.rage; Scene.applied] |} in
  let event := Scene.eventOn (Some actor) in
  calls (ActiveEffectRegionBehaviorType.onTokenExit (Scene.activeEffect true) event)
    = [updateEffect 1 {| changeDuration := None; changeDisabled := Some true |}]
  ∧ calls (ActiveEffectRegionBehaviorType.onTokenExit (Scene.activeEffect false) event)
    = [deleteEffect 1].
Proof.
  intros actor event. split.
  - pose proof (tokenExit_disable_or_delete (Scene.activeEffect true) event actor
                  1 Scene.applied eq_refl eq_refl eq_refl eq_refl) as [Hrun _].
    simpl in Hrun. by rewrite Hrun.
  - pose proof (tokenExit_disable_or_delete (Scene.activeEffect false) event actor
                  1 Scene.applied eq_refl eq_refl eq_refl eq_refl) as [Hrun _].
    simpl in Hrun. by rewrite Hrun.
Defined.

(** ** The events handler: resetDuration *)

(** C9: with action resetDuration, on the active GM's client and with a
    resolving template, the handler looks for the actor's effect that has the
    template's name, whatever the configured name is; when there is one it
    updates only the duration start of that effect to the initial duration,
    and when there is none it does nothing. *)
Theorem resetDuration_by_template_name (game : Game)
    (this : ActiveEffectEventsRegionBehaviorType.t) (event : RegionEvent)
    (actor : Actor) (tmpl : ActiveEffect.t) :
  let run := ActiveEffectEventsRegionBehaviorType._handleRegionEvent game this event in
  let actor' := performAll (calls run) actor in
  eventActor event = Some actor →
  ActiveEffectEventsRegionBehaviorType.isActiveGM game = true →
  ActiveEffectEventsRegionBehaviorType.action this = Some "resetDuration" →
  fromUuid game (ActiveEffectEventsRegionBehaviorType.uuid this) = Some tmpl →
  match getName actor (Some (ActiveEffect.name tmpl)) with
  | Some (i, e) =>
      run = call (updateEffect i {| changeDuration := Some (getInitialDuration game);
                                    changeDisabled := None |})
      ∧ effects actor' !! i
        = Some {| ActiveEffect.name := ActiveEffect.name e;
                  ActiveEffect.origin := ActiveEffect.origin e;
                  ActiveEffect.disabled := ActiveEffect.disabled e;
                  ActiveEffect.transfer := ActiveEffect.transfer e;
                  ActiveEffect.duration :=
                    mergeDuration (getInitialDuration game) (ActiveEffect.duration e);
                  ActiveEffect.extra := ActiveEffect.extra e |}
      ∧ (∀ j, j ≠ i → effects actor' !! j = effects actor !! j)
      ∧ length (effects actor') = length (effects actor)
  | None => run = ret tt ∧ actor' = actor
  end
  ∧ (∀ n, ActiveEffectEventsRegionBehaviorType._handleRegionEvent game
            {| ActiveEffectEventsRegionBehaviorType.action :=
                 ActiveEffectEventsRegionBehaviorType.action this;
               ActiveEffectEventsRegionBehaviorType.uuid :=
                 ActiveEffectEventsRegionBehaviorType.uuid this;
               ActiveEffectEventsRegionBehaviorType.name := n;
               ActiveEffectEventsRegionBehaviorType.parent :=
                 ActiveEffectEventsRegionBehaviorType.parent this |} event
          = run).
Proof.
  intros run actor' Hactor Hgm Haction Htmpl. subst actor' run.
  unfold ActiveEffectEventsRegionBehaviorType._handleRegionEvent,
    ActiveEffectEventsRegionBehaviorType.onResetDuration, caseOf.
  simpl. rewrite Hactor, Hgm, Haction, Htmpl. simpl negb. cbv iota.
  rewrite bool_decide_eq_false_2 by done.
  rewrite bool_decide_eq_true_2 by done.
  split; [|done].
  rewrite readProperty_Some.
  destruct (getName actor (Some (ActiveEffect.name tmpl))) as [[i e]|] eqn:Hname.
  - apply list_find_Some in Hname as (Hlookup & _ & _).
    rewrite performAll_call, effects_update.
    split; [done|]. split; [|split].
    + by rewrite list_lookup_alter_eq, Hlookup.
    + intros j Hj. by rewrite list_lookup_alter_ne.
    + apply length_alter.
  - done.
Qed.

Lemma resetDuration_by_template_name_witness :
  let actor := {| effects := [Scene.rage; Scene.applied] |} in
  ActiveEffectEventsRegionBehaviorType._handleRegionEvent Scene.game
    (Scene.activeEffectEvents "resetDuration") (Scene.eventOn (Some actor))
  = call (updateEffect 1 {| changeDuration := Some Scene.now; changeDisabled := None |}).
Proof.
  intros actor.
  pose proof (resetDuration_by_template_name Scene.game
                (Scene.activeEffectEvents "resetDuration")
                (Scene.eventOn (Some actor)) actor Scene.bless
                eq_refl eq_refl eq_refl eq_refl) as [Hfound _].
  change (getName actor (Some (ActiveEffect.name Scene.bless)))
    with (Some (1, Scene.applied)) in Hfound.
  exact (proj1 Hfound).
Defined.

(** ** Documents the module creates *)

Lemma applyEffectToActor_creates (game : Game) (effect : option ActiveEffect.t)
    (actor : Actor) (behavior : RegionBehavior) (d : ActiveEffect.t) :
  createEffect d ∈ calls (applyEffectToActor game effect actor behavior) →
  ∃ tmpl, effect = Some tmpl
    ∧ findByOrigin actor (behaviorUuid behavior) = None
    ∧ d = {| ActiveEffect.name := ActiveEffect.name tmpl;
             ActiveEffect.origin := Some (behaviorUuid behavior);
             ActiveEffect.disabled := false;
             ActiveEffect.transfer := false;
             ActiveEffect.duration := ActiveEffect.duration tmpl;
             ActiveEffect.extra := ActiveEffect.extra tmpl |}.
Proof.
  destruct effect as [tmpl|].
  - destruct (findByOrigin actor (behaviorUuid behavior)) as [[i e]|] eqn:Hfind.
    + rewrite (applyEffectToActor_existing _ _ _ _ _ _ Hfind).
      intros Hin. apply list_elem_of_singleton in Hin. done.
    + rewrite (applyEffectToActor_new _ _ _ _ Hfind).
      intros Hin. apply list_elem_of_singleton in Hin. injection Hin as ->. eauto.
  - destruct (applyEffectToActor_null game actor behavior) as [prop ->].
    intros Hin. by apply elem_of_nil in Hin.
Qed.

(** C10: whichever handler issues it, a create call carries the template's
    data with origin set to the uuid of the handler's behaviour, transfer
    false and disabled false, and the lookup by origin that token-exit and a
    later enter perform finds exactly this document afterwards. *)
Theorem created_effect_origin (game : Game) (h : Handler) (event : RegionEvent)
    (d : ActiveEffect.t) :
  createEffect d ∈ calls (handle game h event) →
  let uuid := behaviorUuid (handlerBehavior h) in
  ActiveEffect.origin d = Some uuid
  ∧ ActiveEffect.transfer d = false
  ∧ ActiveEffect.disabled d = false
  ∧ ∃ actor tmpl,
      eventActor event = Some actor
      ∧ fromUuid game (handlerUuid h) = Some tmpl
      ∧ ActiveEffect.name d = ActiveEffect.name tmpl
      ∧ ActiveEffect.duration d = ActiveEffect.duration tmpl
      ∧ ActiveEffect.extra d = ActiveEffect.extra tmpl
      ∧ findByOrigin (perform (createEffect d) actor) uuid
        = Some (length (effects actor), d).
Proof.
  intros Hin uuid.
  assert (∃ actor, eventActor event = Some actor
           ∧ createEffect d ∈ calls (applyEffectToActor game
                 (fromUuid game (handlerUuid h)) actor (handlerBehavior h)))
    as (actor & Hactor & Hcreate).
  { destruct h as [this | this | this]; simpl in Hin |- *.
    - unfold ActiveEffectRegionBehaviorType.onTokenEnter in Hin.
      destruct (eventActor event) as [actor|];
        [| by apply elem_of_nil in Hin].
      destruct (truthy _); [| by apply elem_of_nil in Hin].
      destruct (isSelf (user event)); [| by apply elem_of_nil in Hin].
      eauto.
    - unfold ActiveEffectRegionBehaviorType.onTokenExit in Hin.
      destruct (eventActor event) as [actor|];
        [| by apply elem_of_nil in Hin].
      destruct (truthy _); [| by apply elem_of_nil in Hin].
      destruct (isSelf (user event)); [| by apply elem_of_nil in Hin].
      simpl in Hin.
      destruct (findByOrigin actor _) as [[i e]|];
        [| by apply elem_of_nil in Hin].
      destruct (ActiveEffectRegionBehaviorType.disable this);
        apply list_elem_of_singleton in Hin; done.
    - unfold ActiveEffectEventsRegionBehaviorType._handleRegionEvent,
        ActiveEffectEventsRegionBehaviorType.onResetDuration,
        ActiveEffectEventsRegionBehaviorType.onEnableDisable in Hin.
      destruct (eventActor event) as [actor|];
        [| by apply elem_of_nil in Hin].
      destruct (ActiveEffectEventsRegionBehaviorType.isActiveGM game);
        [| by apply elem_of_nil in Hin].
      simpl in Hin.
      destruct (caseOf _ "add"); [eauto|].
      destruct (caseOf _ "resetDuration").
      { destruct (fromUuid game _) as [tmpl|].
        - rewrite readProperty_Some in Hin.
          destruct (getName actor _) as [[i e]|];
            [apply list_elem_of_singleton in Hin | apply elem_of_nil in Hin]; done.
        - by apply elem_of_nil in Hin. }
      destruct (caseOf _ "enable").
      { destruct (getName actor _) as [[i e]|];
          [apply list_elem_of_singleton in Hin | apply elem_of_nil in Hin]; done. }
      destruct (caseOf _ "disable").
      { destruct (getName actor _) as [[i e]|];
          [apply list_elem_of_singleton in Hin | apply elem_of_nil in Hin]; done. }
      destruct (caseOf _ "delete"); [| by apply elem_of_nil in Hin].
      destruct (getName actor _) as [[i e]|];
        [apply list_elem_of_singleton in Hin | apply elem_of_nil in Hin]; done. }
  apply applyEffectToActor_creates in Hcreate as (tmpl & Htmpl & Hnone & ->).
  repeat split.
  exists actor, tmpl. repeat split; [done | done |].
  by apply findByOrigin_created.
Qed.

Lemma created_effect_origin_witness :
  let actor := {| effects := [Scene.rage] |} in
  let d := {| ActiveEffect.name := "Bless";
              ActiveEffect.origin := Some (behaviorUuid Scene.behavior);
              ActiveEffect.disabled := false;
              ActiveEffect.transfer := false;
              ActiveEffect.duration := ActiveEffect.duration Scene.bless;
              ActiveEffect.extra := ActiveEffect.extra Scene.bless |} in
  ActiveEffect.transfer Scene.bless = true
  ∧ ActiveEffect.disabled Scene.bless = true
  ∧ calls (handle Scene.game (ActiveEffectEvents (Scene.activeEffectEvents "add"))
             (Scene.eventOn (Some actor))) = [createEffect d]
  ∧ ActiveEffect.origin d = Some (behaviorUuid Scene.behavior)
  ∧ ActiveEffect.transfer d = false
  ∧ ActiveEffect.disabled d = false.
Proof.
  intros actor d.
  split; [reflexivity|]. split; [reflexivity|]. split; [reflexivity|].
  pose proof (created_effect_origin Scene.game
                (ActiveEffectEvents (Scene.activeEffectEvents "add"))
                (Scene.eventOn (Some actor)) d) as Hcreated.
  destruct Hcreated as (Horigin & Htransfer & Hdisabled & _).
  - vm_compute. apply list_elem_of_singleton. reflexivity.
  - exact (conj Horigin (conj Htransfer Hdisabled)).
Defined.

(** ** A template that does not resolve *)

(** C2: when a handler that resolves the template by uuid runs (token-enter
    under its guards, or the events handler with action add or
    resetDuration on the active GM's client) and [fromUuid] yields null, the
    handler issues no host call and its own promise fulfils, but a property
    of null is read in the helper it calls: the helper's promise rejects with
    a TypeError that nobody handles. *)
Theorem unresolved_template_rejects (game : Game) (h : Handler)
    (event : RegionEvent) (actor : Actor) :
  eventActor event = Some actor →
  resolvesTemplate game h event = true →
  fromUuid game (handlerUuid h) = None →
  ∃ prop,
    handle game h event
    = MkRun [] [TypeError ("Cannot read properties of null (reading '"
                             +:+ prop +:+ "')")] (Normal tt).
Proof.
  intros Hactor Hresolves Hnull.
  unfold resolvesTemplate in Hresolves.
  destruct (appliesEffect game h event) eqn:Happlies.
  - rewrite (handle_appliesEffect _ _ _ _ Hactor Happlies), Hnull.
    destruct (applyEffectToActor_null game actor (handlerBehavior h)) as [prop ->].
    by exists prop.
  - destruct h as [this | this | this]; simpl in *; try done.
    apply andb_true_iff in Hresolves as [Hgm Hreset].
    rewrite Hgm in Happlies. simpl in Happlies.
    unfold ActiveEffectEventsRegionBehaviorType._handleRegionEvent,
      ActiveEffectEventsRegionBehaviorType.onResetDuration, caseOf.
    rewrite Hactor, Hgm, Happlies, Hreset, Hnull. simpl negb. cbv iota.
    rewrite readProperty_None. by exists "name".
Qed.

Lemma unresolved_template_rejects_witness :
  let actor := {| effects := [Scene.rage] |} in
  let event := Scene.eventOn (Some actor) in
  rejections (handle Scene.gameWithoutTemplate
                (ActiveEffectTokenEnter (Scene.activeEffect false)) event)
    = [TypeError "Cannot read properties of null (reading 'toObject')"]
  ∧ rejections (handle Scene.gameWithoutTemplate
                  (ActiveEffectEvents (Scene.activeEffectEvents "add")) event)
    = [TypeError "Cannot read properties of null (reading 'toObject')"]
  ∧ rejections (handle Scene.gameWithoutTemplate
                  (ActiveEffectEvents (Scene.activeEffectEvents "resetDuration")) event)
    = [TypeError "Cannot read properties of null (reading 'name')"].
Proof.
  intros actor event.
  destruct (unresolved_template_rejects Scene.gameWithoutTemplate
              (ActiveEffectTokenEnter (Scene.activeEffect false)) event actor
              eq_refl eq_refl eq_refl) as [prop1 Henter].
  destruct (unresolved_template_rejects Scene.gameWithoutTemplate
              (ActiveEffectEvents (Scene.activeEffectEvents "add")) event actor
              eq_refl eq_refl eq_refl) as [prop2 Hadd].
  destruct (unresolved_template_rejects Scene.gameWithoutTemplate
              (ActiveEffectEvents (Scene.activeEffectEvents "resetDuration")) event actor
              eq_refl eq_refl eq_refl) as [prop3 Hreset].
  repeat split; reflexivity.
Defined.

(** * Further properties of the module *)

(** ** The choices of the status id field *)






(** ** The init hook *)

(** X3: after the init callback each of the four type names listed for the
    sheet is registered with the module's class of that behaviour, whatever
    was registered under the name before; every other entry of the registry
    is as it was; the sheet is added after the registrations already
    present, as the default sheet. *)
Theorem onInit_registers (config : Config) :
  let config' := onInit config in
  ∃ sheet,
    registeredSheets config' = registeredSheets config ++ [sheet]
    ∧ sheetMakeDefault sheet = true
    ∧ NoDup (sheetTypes sheet)
    ∧ (∀ k, k ∈ sheetTypes sheet →
         ∃ class, dataModels config' !! k = Some class
                  ∧ ∀ name, class ≠ OtherDataModel name)
    ∧ (∀ k, k ∉ sheetTypes sheet →
         dataModels config' !! k = dataModels config !! k)
    ∧ dataModels config' !! "region-active-effects.statusEffect"
      = Some StatusEffectRegionBehaviorTypeClass
    ∧ dataModels config' !! "region-active-effects.statusEffectEvents"
      = Some StatusEffectEventsRegionBehaviorTypeClass
    ∧ dataModels config' !! "region-active-effects.activeEffect"
      = Some ActiveEffectRegionBehaviorTypeClass
    ∧ dataModels config' !! "region-active-effects.activeEffectEvents"
      = Some ActiveEffectEventsRegionBehaviorTypeClass.
Proof.
  simpl. unfold objectAssign. simpl.
  eexists. split; [reflexivity|]. simpl. split; [done|]. split; [|split; [|split]].
  - apply (bool_decide_unpack _). by vm_compute.
  - intros k Hk.
    repeat (apply elem_of_cons in Hk as [-> | Hk];
            [eexists; split; [by simplify_map_eq | done]|]).
    by apply elem_of_nil in Hk.
  - intros k Hout.
    rewrite !lookup_insert_ne; [done | | | |]; intros <-; apply Hout; set_solver.
  - repeat split; by simplify_map_eq.
Qed.

(** ** The shape of a handler's run *)

Lemma truthy_falsy (v : option string) (s : string) :
  truthy v = Some s → falsy v = false.
Proof.
  destruct v as [s'|]; simpl; [|done]. by case_bool_decide.
Qed.

Lemma list_find_in_range {A} (P : A → Prop) `{∀ x, Decision (P x)}
    (l : list A) (i : nat) (x : A) :
  list_find P l = Some (i, x) → i < length l.
Proof.
  intros Hfind. apply list_find_Some in Hfind as (Hlookup & _).
  by apply lookup_lt_Some in Hlookup.
Qed.


Lemma applyEffectToActor_shape (game : Game) (tmpl : ActiveEffect.t)
    (actor : Actor) (behavior : RegionBehavior) :
  ∃ c, detach (applyEffectToActor game (Some tmpl) actor behavior) = call c
       ∧ ∀ i, callTarget c = Some i → i < length (effects actor).
Proof.
  destruct (findByOrigin actor (behaviorUuid behavior)) as [[i e]|] eqn:Hfind.
  - rewrite (applyEffectToActor_existing _ _ _ _ _ _ Hfind).
    eexists. split; [reflexivity|]. intros j [= <-].
    by eapply list_find_in_range.
  - rewrite (applyEffectToActor_new _ _ _ _ Hfind).
    eexists. split; [reflexivity|]. done.
Qed.

Lemma handle_shape (game : Game) (h : Handler) (event : RegionEvent) :
  handle game h event = ret tt
  ∨ (∃ actor c, eventActor event = Some actor
       ∧ handle game h event = call c
       ∧ ∀ i, callTarget c = Some i → i < length (effects actor))
  ∨ (∃ actor prop, eventActor event = Some actor
       ∧ resolvesTemplate game h event = true
       ∧ fromUuid game (handlerUuid h) = None
       ∧ handle game h event
         = MkRun [] [TypeError ("Cannot read properties of null (reading '"
                                  +:+ prop +:+ "')")] (Normal tt)).
Proof.
  destruct (eventActor event) as [actor|] eqn:Hactor.
  2: { left. destruct h; simpl;
       [ unfold ActiveEffectRegionBehaviorType.onTokenEnter
       | unfold ActiveEffectRegionBehaviorType.onTokenExit
       | unfold ActiveEffectEventsRegionBehaviorType._handleRegionEvent ];
       by rewrite Hactor. }
  destruct h as [this | this | this]; simpl.
  - unfold ActiveEffectRegionBehaviorType.onTokenEnter, resolvesTemplate.
    simpl. rewrite Hactor.
    destruct (truthy _) as [s|] eqn:Huuid; [| by left].
    destruct (isSelf (user event)) eqn:Hself; [| by left].
    rewrite (truthy_falsy _ _ Huuid). simpl. right.
    destruct (fromUuid game _) as [tmpl|] eqn:Htmpl.
    + left. destruct (applyEffectToActor_shape game tmpl actor
                        (ActiveEffectRegionBehaviorType.behavior this))
        as (c & -> & Hc). eauto.
    + right. destruct (applyEffectToActor_null game actor
                         (ActiveEffectRegionBehaviorType.behavior this))
        as [prop ->]. by exists actor, prop.
  - unfold ActiveEffectRegionBehaviorType.onTokenExit. rewrite Hactor.
    destruct (truthy _) as [s|]; [| by left].
    destruct (isSelf (user event)); [| by left]. simpl.
    destruct (findByOrigin actor _) as [[i e]|] eqn:Hfind; [| by left].
    right. left. exists actor.
    destruct (ActiveEffectRegionBehaviorType.disable this);
      (eexists; split; [done|]; split; [reflexivity|]);
      intros j [= <-]; by eapply list_find_in_range.
  - unfold ActiveEffectEventsRegionBehaviorType._handleRegionEvent,
      ActiveEffectEventsRegionBehaviorType.onResetDuration,
      ActiveEffectEventsRegionBehaviorType.onEnableDisable,
      resolvesTemplate, caseOf.
    simpl. rewrite Hactor.
    destruct (ActiveEffectEventsRegionBehaviorType.isActiveGM game); [| by left].
    simpl.
    destruct (bool_decide (_ = Some "add")); simpl.
    { right. destruct (fromUuid game _) as [tmpl|] eqn:Htmpl.
      - left. destruct (applyEffectToActor_shape game tmpl actor
                          (ActiveEffectEventsRegionBehaviorType.parent this))
          as (c & -> & Hc). eauto.
      - right. destruct (applyEffectToActor_null game actor
                           (ActiveEffectEventsRegionBehaviorType.parent this))
          as [prop ->]. by exists actor, prop. }
    destruct (bool_decide (_ = Some "resetDuration")); simpl.
    { destruct (fromUuid game _) as [tmpl|] eqn:Htmpl.
      - rewrite readProperty_Some.
        destruct (getName actor _) as [[i e]|] eqn:Hname; [| by left].
        right. left. exists actor. eexists. split; [done|]. split; [reflexivity|].
        intros j [= <-]. by eapply list_find_in_range.
      - right. right. rewrite readProperty_None. by exists actor, "name". }
    destruct (bool_decide (_ = Some "enable")); simpl.
    { destruct (getName actor _) as [[i e]|] eqn:Hname; [| by left].
      right. left. exists actor. eexists. split; [done|]. split; [reflexivity|].
      intros j [= <-]. by eapply list_find_in_range. }
    destruct (bool_decide (_ = Some "disable")); simpl.
    { destruct (getName actor _) as [[i e]|] eqn:Hname; [| by left].
      right. left. exists actor. eexists. split; [done|]. split; [reflexivity|].
      intros j [= <-]. by eapply list_find_in_range. }
    destruct (bool_decide (_ = Some "delete")); simpl; [| by left].
    destruct (getName actor _) as [[i e]|] eqn:Hname; [| by left].
    right. left. exists actor. eexists. split; [done|]. split; [reflexivity|].
    intros j [= <-]. by eapply list_find_in_range.
Qed.


(** X5: an update or delete call of a handler always acts on a document that
    is in the effect collection of the event's actor. *)
Theorem call_target_exists (game : Game) (h : Handler) (event : RegionEvent)
    (actor : Actor) (c : EffectCall) (i : nat) :
  eventActor event = Some actor →
  c ∈ calls (handle game h event) →
  callTarget c = Some i →
  is_Some (effects actor !! i).
Proof.
  intros Hactor Hin Htarget. apply lookup_lt_is_Some.
  destruct (handle_shape game h event)
    as [Hrun | [(actor' & c' & Hactor' & Hrun & Hc) | (actor' & prop & _ & _ & _ & Hrun)]];
    rewrite Hrun in Hin; simpl in Hin.
  - by apply elem_of_nil in Hin.
  - apply list_elem_of_singleton in Hin as ->.
    rewrite Hactor in Hactor'. injection Hactor' as <-. by apply Hc.
  - by apply elem_of_nil in Hin.
Qed.

Lemma call_target_exists_witness :
  is_Some (effects {| effects := [Scene.rage; Scene.applied] |} !! 1).
Proof.
  apply (call_target_exists Scene.game (ActiveEffectTokenExit (Scene.activeEffect false))
           (Scene.eventOn (Some {| effects := [Scene.rage; Scene.applied] |}))
           {| effects := [Scene.rage; Scene.applied] |} (deleteEffect 1) 1).
  - reflexivity.
  - apply list_elem_of_here.
  - reflexivity.
Defined.


(** ** Guards of the active-effect behaviour *)

(** X7: without a configured uuid, or when the triggering user is not self,
    token-enter and token-exit of the active-effect behaviour issue no call
    and leave no rejected promise, whether or not the template resolves. *)
Theorem activeEffect_guards (game : Game) (this : ActiveEffectRegionBehaviorType.t)
    (event : RegionEvent) :
  falsy (ActiveEffectRegionBehaviorType.uuid this) = true
  ∨ isSelf (user event) = false →
  ActiveEffectRegionBehaviorType.onTokenEnter game this event = ret tt
  ∧ ActiveEffectRegionBehaviorType.onTokenExit this event = ret tt.
Proof.
  unfold ActiveEffectRegionBehaviorType.onTokenEnter,
    ActiveEffectRegionBehaviorType.onTokenExit.
  intros [Hfalsy | Hother].
  - apply falsy_truthy in Hfalsy. rewrite Hfalsy.
    by destruct (eventActor event).
  - rewrite Hother.
    by destruct (eventActor event),
                (truthy (ActiveEffectRegionBehaviorType.uuid this)).
Qed.

Lemma activeEffect_guards_witness :
  let actor := {| effects := [Scene.applied] |} in
  ActiveEffectRegionBehaviorType.onTokenExit (Scene.activeEffect false)
    {| data := Some {| token := Some {| actor := Some actor |} |};
       user := {| isSelf := false |} |} = ret tt.
Proof.
  intros actor.
  apply (activeEffect_guards Scene.gameWithoutTemplate (Scene.activeEffect false)).
  right. reflexivity.
Defined.

(** X8: token-exit does nothing when no effect of the actor has this
    behaviour as its origin, whatever the disable flag is. *)
Theorem tokenExit_nothing_to_remove (this : ActiveEffectRegionBehaviorType.t)
    (event : RegionEvent) (actor : Actor) :
  eventActor event = Some actor →
  findByOrigin actor (behaviorUuid (ActiveEffectRegionBehaviorType.behavior this))
    = None →
  ActiveEffectRegionBehaviorType.onTokenExit this event = ret tt.
Proof.
  intros Hactor Hfind. unfold ActiveEffectRegionBehaviorType.onTokenExit.
  rewrite Hactor, Hfind.
  by destruct (truthy (ActiveEffectRegionBehaviorType.uuid this)),
              (isSelf (user event)).
Qed.

Lemma tokenExit_nothing_to_remove_witness :
  ActiveEffectRegionBehaviorType.onTokenExit (Scene.activeEffect true)
    (Scene.eventOn (Some {| effects := [Scene.rage; Scene.bless] |})) = ret tt.
Proof.
  apply (tokenExit_nothing_to_remove (Scene.activeEffect true) _
           {| effects := [Scene.rage; Scene.bless] |}); reflexivity.
Defined.

(** X9: the status events handler does nothing when no status id is
    configured, whatever the action is. *)
Theorem statusEffectEvents_no_status (this : StatusEffectEventsRegionBehaviorType.t)
    (event : RegionEvent) :
  falsy (StatusEffectEventsRegionBehaviorType.statusId this) = true →
  StatusEffectEventsRegionBehaviorType._handleRegionEvent this event = ret tt.
Proof.
  intros Hfalsy. apply falsy_truthy in Hfalsy.
  unfold StatusEffectEventsRegionBehaviorType._handleRegionEvent.
  rewrite Hfalsy. by destruct (eventActor event).
Qed.

Lemma statusEffectEvents_no_status_witness :
  StatusEffectEventsRegionBehaviorType._handleRegionEvent
    {| StatusEffectEventsRegionBehaviorType.statusId := None;
       StatusEffectEventsRegionBehaviorType.action := "apply";
       StatusEffectEventsRegionBehaviorType.overlay := true |}
    (Scene.eventOn (Some {| effects := [] |})) = ret tt.
Proof. apply statusEffectEvents_no_status. reflexivity. Defined.

(** ** Sequences of enter and exit *)

Lemma actor_eq (a b : Actor) : effects a = effects b → a = b.
Proof. destruct a, b. simpl. by intros ->. Qed.

Lemma delete_snoc {A} (l : list A) (x : A) : delete (length l) (l ++ [x]) = l.
Proof. induction l as [| y l IH]; simpl; [done | by f_equal]. Qed.

Lemma filter_alter_skip {A} (P : A → Prop) `{∀ x, Decision (P x)}
    (f : A → A) (l : list A) (i : nat) (x : A) :
  l !! i = Some x → ¬ P x → ¬ P (f x) → filter P (alter f i l) = filter P l.
Proof.
  revert i. induction l as [| y l IH]; intros i Hlookup Hx Hfx; [done|].
  destruct i as [| i].
  - injection Hlookup as ->.
    change (alter f 0 (x :: l)) with (f x :: l).
    by rewrite !filter_cons_False.
  - change (alter f (S i) (y :: l)) with (y :: alter f i l).
    rewrite !filter_cons. by rewrite (IH i).
Qed.

Lemma filter_delete_skip {A} (P : A → Prop) `{∀ x, Decision (P x)}
    (l : list A) (i : nat) (x : A) :
  l !! i = Some x → ¬ P x → filter P (delete i l) = filter P l.
Proof.
  revert i. induction l as [| y l IH]; intros i Hlookup Hx; [done|].
  destruct i as [| i].
  - injection Hlookup as ->. simpl. by rewrite filter_cons_False.
  - change (delete (S i) (y :: l)) with (y :: delete i l).
    rewrite !filter_cons. by rewrite (IH i).
Qed.

Lemma alter_fixed {A} (f : A → A) (l : list A) (i : nat) (x : A) :
  l !! i = Some x → f x = x → alter f i l = l.
Proof.
  intros Hlookup Hfx. apply list_eq. intros j.
  destruct (decide (i = j)) as [<- | Hne].
  - by rewrite list_lookup_alter_eq, Hlookup; simpl; rewrite Hfx.
  - by rewrite list_lookup_alter_ne.
Qed.

Lemma tokenEnter_run (game : Game) (this : ActiveEffectRegionBehaviorType.t)
    (event : RegionEvent) (actor : Actor) (tmpl : ActiveEffect.t) :
  eventActor event = Some actor →
  falsy (ActiveEffectRegionBehaviorType.uuid this) = false →
  isSelf (user event) = true →
  fromUuid game (ActiveEffectRegionBehaviorType.uuid this) = Some tmpl →
  ActiveEffectRegionBehaviorType.onTokenEnter game this event
  = detach (applyEffectToActor game (Some tmpl) actor
              (ActiveEffectRegionBehaviorType.behavior this)).
Proof.
  intros Hactor Huuid Hself Htmpl.
  apply truthy_not_falsy in Huuid as (s & Hs & _).
  unfold ActiveEffectRegionBehaviorType.onTokenEnter.
  by rewrite Hactor, Hs, Hself, Htmpl.
Qed.

Lemma tokenExit_run (this : ActiveEffectRegionBehaviorType.t)
    (event : RegionEvent) (actor : Actor) (i : nat) (e : ActiveEffect.t) :
  eventActor event = Some actor →
  falsy (ActiveEffectRegionBehaviorType.uuid this) = false →
  isSelf (user event) = true →
  findByOrigin actor (behaviorUuid (ActiveEffectRegionBehaviorType.behavior this))
    = Some (i, e) →
  ActiveEffectRegionBehaviorType.onTokenExit this event
  = detach (call (if ActiveEffectRegionBehaviorType.disable this
                  then updateEffect i {| changeDuration := None;
                                         changeDisabled := Some true |}
                  else deleteEffect i)).
Proof.
  intros Hactor Huuid Hself Hfind.
  apply truthy_not_falsy in Huuid as (s & Hs & _).
  unfold ActiveEffectRegionBehaviorType.onTokenExit.
  rewrite Hactor, Hs, Hself, Hfind. simpl.
  by destruct (ActiveEffectRegionBehaviorType.disable this).
Qed.

(** X10: on an actor without an effect from this behaviour, token-enter
    followed by token-exit with the disable flag off gives back the actor's
    effect collection as it was before. *)
Theorem enter_exit_round_trip (game : Game) (this : ActiveEffectRegionBehaviorType.t)
    (event1 event2 : RegionEvent) (actor : Actor) (tmpl : ActiveEffect.t) :
  let uuid := behaviorUuid (ActiveEffectRegionBehaviorType.behavior this) in
  let actor1 :=
    performAll (calls (ActiveEffectRegionBehaviorType.onTokenEnter game this event1))
               actor in
  let actor2 :=
    performAll (calls (ActiveEffectRegionBehaviorType.onTokenExit this event2))
               actor1 in
  eventActor event1 = Some actor → eventActor event2 = Some actor1 →
  falsy (ActiveEffectRegionBehaviorType.uuid this) = false →
  isSelf (user event1) = true → isSelf (user event2) = true →
  fromUuid game (ActiveEffectRegionBehaviorType.uuid this) = Some tmpl →
  ActiveEffectRegionBehaviorType.disable this = false →
  findByOrigin actor uuid = None →
  length (effects actor1) = S (length (effects actor)) ∧ actor2 = actor.
Proof.
  intros uuid actor1 actor2 Hactor1 Hactor2 Huuid Hself1 Hself2 Htmpl Hdisable Hfind.
  subst actor2 actor1. revert Hactor2.
  rewrite (tokenEnter_run _ _ _ _ _ Hactor1 Huuid Hself1 Htmpl).
  rewrite (applyEffectToActor_new _ _ _ _ Hfind), performAll_call.
  intros Hactor2.
  match type of Hactor2 with
  | context [createEffect ?d] =>
      pose proof (findByOrigin_created actor uuid d Hfind eq_refl) as Hfind'
  end.
  rewrite (tokenExit_run _ _ _ _ _ Hactor2 Huuid Hself2 Hfind'), Hdisable.
  rewrite performAll_call. split.
  - rewrite effects_create, length_app. simpl. lia.
  - apply actor_eq. by rewrite effects_delete, effects_create, delete_snoc.
Qed.

Lemma enter_exit_round_trip_witness :
  let actor := {| effects := [Scene.rage] |} in
  let actor1 :=
    performAll (calls (ActiveEffectRegionBehaviorType.onTokenEnter Scene.game
                         (Scene.activeEffect false) (Scene.eventOn (Some actor))))
               actor in
  performAll (calls (ActiveEffectRegionBehaviorType.onTokenExit
                       (Scene.activeEffect false) (Scene.eventOn (Some actor1))))
             actor1 = actor.
Proof.
  intros actor actor1.
  exact (proj2 (enter_exit_round_trip Scene.game (Scene.activeEffect false)
                  (Scene.eventOn (Some actor)) (Scene.eventOn (Some actor1)) actor
                  Scene.bless eq_refl eq_refl eq_refl eq_refl eq_refl eq_refl
                  eq_refl eq_refl)).
Defined.

(** X11: when a handler re-applies an effect that is already on the actor,
    the document keeps its name, origin, transfer flag and remaining data;
    only its disabled flag becomes false and its duration start is merged
    with the initial duration.  No other document changes and none is added
    or removed. *)
Theorem reapply_changes_only_target (game : Game) (h : Handler)
    (event : RegionEvent) (actor : Actor) (tmpl : ActiveEffect.t)
    (i : nat) (e : ActiveEffect.t) :
  let actor' := performAll (calls (handle game h event)) actor in
  eventActor event = Some actor → appliesEffect game h event = true →
  fromUuid game (handlerUuid h) = Some tmpl →
  findByOrigin actor (behaviorUuid (handlerBehavior h)) = Some (i, e) →
  effects actor' !! i
    = Some {| ActiveEffect.name := ActiveEffect.name e;
              ActiveEffect.origin := ActiveEffect.origin e;
              ActiveEffect.disabled := false;
              ActiveEffect.transfer := ActiveEffect.transfer e;
              ActiveEffect.duration :=
                mergeDuration (getInitialDuration game) (ActiveEffect.duration e);
              ActiveEffect.extra := ActiveEffect.extra e |}
  ∧ (∀ j, j ≠ i → effects actor' !! j = effects actor !! j)
  ∧ length (effects actor') = length (effects actor).
Proof.
  intros actor' Hactor Happlies Htmpl Hfind. subst actor'.
  rewrite (handle_appliesEffect _ _ _ _ Hactor Happlies), Htmpl.
  rewrite (applyEffectToActor_existing _ _ _ _ _ _ Hfind).
  rewrite performAll_call, effects_update.
  apply findByOrigin_lookup in Hfind as [Hlookup _].
  split; [|split].
  - by rewrite list_lookup_alter_eq, Hlookup.
  - intros j Hj. by rewrite list_lookup_alter_ne.
  - apply length_alter.
Qed.

Lemma reapply_changes_only_target_witness :
  let actor := {| effects := [Scene.rage; Scene.applied] |} in
  let actor' :=
    performAll (calls (handle Scene.game (ActiveEffectEvents (Scene.activeEffectEvents "add"))
                         (Scene.eventOn (Some actor)))) actor in
  effects actor' !! 0 = Some Scene.rage
  ∧ ActiveEffect.disabled <$> effects actor' !! 1 = Some false.
Proof.
  intros actor actor'.
  destruct (reapply_changes_only_target Scene.game
              (ActiveEffectEvents (Scene.activeEffectEvents "add"))
              (Scene.eventOn (Some actor)) actor Scene.bless 1 Scene.applied
              eq_refl eq_refl eq_refl eq_refl) as (Htarget & Hothers & _).
  split.
  - apply (Hothers 0). lia.
  - subst actor'. by rewrite Htarget.
Defined.

(** X12: after a token-exit with the disable flag on, the next token-enter
    finds the disabled document at the same place and enables it again
    instead of creating one: the collection keeps its length and the
    document ends up enabled with its duration start reset. *)
Theorem exit_disabled_then_enter (game : Game)
    (this : ActiveEffectRegionBehaviorType.t) (event1 event2 : RegionEvent)
    (actor : Actor) (tmpl : ActiveEffect.t) (i : nat) (e : ActiveEffect.t) :
  let uuid := behaviorUuid (ActiveEffectRegionBehaviorType.behavior this) in
  let actor1 :=
    performAll (calls (ActiveEffectRegionBehaviorType.onTokenExit this event1))
               actor in
  let run2 := ActiveEffectRegionBehaviorType.onTokenEnter game this event2 in
  let actor2 := performAll (calls run2) actor1 in
  eventActor event1 = Some actor → eventActor event2 = Some actor1 →
  falsy (ActiveEffectRegionBehaviorType.uuid this) = false →
  isSelf (user event1) = true → isSelf (user event2) = true →
  fromUuid game (ActiveEffectRegionBehaviorType.uuid this) = Some tmpl →
  ActiveEffectRegionBehaviorType.disable this = true →
  findByOrigin actor uuid = Some (i, e) →
  ActiveEffect.disabled <$> effects actor1 !! i = Some true
  ∧ run2 = call (updateEffect i {| changeDuration := Some (getInitialDuration game);
                                   changeDisabled := Some false |})
  ∧ effects actor2 !! i
    = Some {| ActiveEffect.name := ActiveEffect.name e;
              ActiveEffect.origin := ActiveEffect.origin e;
              ActiveEffect.disabled := false;
              ActiveEffect.transfer := ActiveEffect.transfer e;
              ActiveEffect.duration :=
                mergeDuration (getInitialDuration game) (ActiveEffect.duration e);
              ActiveEffect.extra := ActiveEffect.extra e |}
  ∧ (∀ j, j ≠ i → effects actor2 !! j = effects actor !! j)
  ∧ length (effects actor2) = length (effects actor).
Proof.
  intros uuid actor1 run2 actor2 Hactor1 Hactor2 Huuid Hself1 Hself2 Htmpl
         Hdisable Hfind.
  subst actor2 run2 actor1. revert Hactor2.
  rewrite (tokenExit_run _ _ _ _ _ Hactor1 Huuid Hself1 Hfind), Hdisable.
  rewrite performAll_call. intros Hactor2.
  destruct (findByOrigin_updated _ _ _ i {| changeDuration := None;
                                            changeDisabled := Some true |} _ Hfind)
    as [e' Hfind'].
  rewrite (tokenEnter_run _ _ _ _ _ Hactor2 Huuid Hself2 Htmpl).
  rewrite (applyEffectToActor_existing _ _ _ _ _ _ Hfind'), performAll_call.
  rewrite !effects_update.
  apply findByOrigin_lookup in Hfind as [Hlookup _].
  split; [|split; [done|split; [|split]]].
  - by rewrite list_lookup_alter_eq, Hlookup.
  - by rewrite !list_lookup_alter_eq, Hlookup.
  - intros j Hj. by rewrite !list_lookup_alter_ne.
  - by rewrite !length_alter.
Qed.

Lemma exit_disabled_then_enter_witness :
  let actor := {| effects := [Scene.rage; Scene.applied] |} in
  let actor1 :=
    performAll (calls (ActiveEffectRegionBehaviorType.onTokenExit
                         (Scene.activeEffect true) (Scene.eventOn (Some actor))))
               actor in
  let actor2 :=
    performAll (calls (ActiveEffectRegionBehaviorType.onTokenEnter Scene.game
                         (Scene.activeEffect true) (Scene.eventOn (Some actor1))))
               actor1 in
  length (effects actor2) = 2
  ∧ ActiveEffect.disabled <$> effects actor2 !! 1 = Some false.
Proof.
  intros actor actor1 actor2.
  destruct (exit_disabled_then_enter Scene.game (Scene.activeEffect true)
              (Scene.eventOn (Some actor)) (Scene.eventOn (Some actor1)) actor
              Scene.bless 1 Scene.applied
              eq_refl eq_refl eq_refl eq_refl eq_refl eq_refl eq_refl eq_refl)
    as (_ & _ & Htarget & _ & Hlength).
  subst actor2 actor1. split; [exact Hlength | by rewrite Htarget].
Defined.

(** X13: token-enter and token-exit of a behaviour leave every effect of
    another origin (or of no origin) in the actor's collection as it is, in
    the same order. *)
Theorem other_origins_untouched (game : Game)
    (this : ActiveEffectRegionBehaviorType.t) (event : RegionEvent) (actor : Actor) :
  let uuid := behaviorUuid (ActiveEffectRegionBehaviorType.behavior this) in
  let others (a : Actor) :=
    filter (λ e, ActiveEffect.origin e ≠ Some uuid) (effects a) in
  eventActor event = Some actor →
  others (performAll
            (calls (ActiveEffectRegionBehaviorType.onTokenEnter game this event)) actor)
    = others actor
  ∧ others (performAll
              (calls (ActiveEffectRegionBehaviorType.onTokenExit this event)) actor)
    = others actor.
Proof.
  intros uuid others Hactor. subst others. simpl.
  unfold ActiveEffectRegionBehaviorType.onTokenEnter,
    ActiveEffectRegionBehaviorType.onTokenExit.
  rewrite Hactor.
  destruct (truthy (ActiveEffectRegionBehaviorType.uuid this)) as [s|];
    [| done].
  destruct (isSelf (user event)); [| done]. simpl negb. cbv iota.
  fold uuid. split.
  - destruct (fromUuid game _) as [tmpl|].
    + destruct (findByOrigin actor uuid) as [[i e]|] eqn:Hfind.
      * rewrite (applyEffectToActor_existing _ _ _ _ _ _ Hfind).
        rewrite performAll_call, effects_update.
        apply findByOrigin_lookup in Hfind as [Hlookup Horigin].
        apply (filter_alter_skip _ _ _ _ e); [done | |]; intros Hne; by apply Hne.
      * rewrite (applyEffectToActor_new _ _ _ _ Hfind).
        rewrite performAll_call, effects_create, filter_app.
        rewrite filter_cons_False, filter_nil, app_nil_r; [done|].
        intros Hne. by apply Hne.
    + by destruct (applyEffectToActor_null game actor
                     (ActiveEffectRegionBehaviorType.behavior this)) as [prop ->].
  - destruct (findByOrigin actor uuid) as [[i e]|] eqn:Hfind; [| done].
    apply findByOrigin_lookup in Hfind as [Hlookup Horigin].
    destruct (ActiveEffectRegionBehaviorType.disable this);
      rewrite performAll_call.
    + rewrite effects_update.
      apply (filter_alter_skip _ _ _ _ e); [done | |]; intros Hne; by apply Hne.
    + rewrite effects_delete.
      apply (filter_delete_skip _ _ _ e); [done|]. intros Hne. by apply Hne.
Qed.

Lemma other_origins_untouched_witness :
  let actor := {| effects := [Scene.rage; Scene.applied; Scene.bless] |} in
  filter (λ e, ActiveEffect.origin e ≠ Some (behaviorUuid Scene.behavior))
    (effects (performAll
                (calls (ActiveEffectRegionBehaviorType.onTokenExit
                          (Scene.activeEffect false) (Scene.eventOn (Some actor))))
                actor))
  = [Scene.rage; Scene.bless].
Proof.
  intros actor.
  etransitivity.
  - exact (proj2 (other_origins_untouched Scene.game (Scene.activeEffect false)
                    (Scene.eventOn (Some actor)) actor eq_refl)).
  - reflexivity.
Defined.

(** ** The events handler: enable, disable, delete *)

Lemma getName_updated (a : Actor) (name : option string) (i j : nat)
    (ch : Changes) (e : ActiveEffect.t) :
  getName a name = Some (i, e) →
  ∃ e', getName (perform (updateEffect j ch) a) name = Some (i, e').
Proof.
  unfold getName. intros Hfind. simpl.
  assert (Hfst : fst <$> list_find (λ e, Some (ActiveEffect.name e) = name)
                           (alter (applyChanges ch) j (effects a)) = Some i).
  { rewrite list_find_alter_index by done. by rewrite Hfind. }
  destruct (list_find _ (alter _ _ _)) as [[i' e']|]; [|done].
  exists e'. simpl in Hfst. congruence.
Qed.

Lemma enableDisable_run (game : Game)
    (this : ActiveEffectEventsRegionBehaviorType.t) (event : RegionEvent)
    (actor : Actor) (disabled : bool) :
  eventActor event = Some actor →
  ActiveEffectEventsRegionBehaviorType.isActiveGM game = true →
  ActiveEffectEventsRegionBehaviorType.action this
    = Some (if disabled then "disable" else "enable") →
  ActiveEffectEventsRegionBehaviorType._handleRegionEvent game this event
  = detach (ActiveEffectEventsRegionBehaviorType.onEnableDisable this actor disabled).
Proof.
  intros Hactor Hgm Haction.
  unfold ActiveEffectEventsRegionBehaviorType._handleRegionEvent, caseOf.
  rewrite Hactor, Hgm, Haction. by destruct disabled.
Qed.

(** X14: with action enable or disable on the active GM's client, the
    handler looks up the first effect with the configured name and sets only
    its disabled flag, to false for enable and to true for disable; when no
    effect has that name it does nothing. *)
Theorem enableDisable_by_name (game : Game)
    (this : ActiveEffectEventsRegionBehaviorType.t) (event : RegionEvent)
    (actor : Actor) (disabled : bool) :
  let run := ActiveEffectEventsRegionBehaviorType._handleRegionEvent game this event in
  let actor' := performAll (calls run) actor in
  eventActor event = Some actor →
  ActiveEffectEventsRegionBehaviorType.isActiveGM game = true →
  ActiveEffectEventsRegionBehaviorType.action this
    = Some (if disabled then "disable" else "enable") →
  match getName actor (ActiveEffectEventsRegionBehaviorType.name this) with
  | Some (i, e) =>
      run = call (updateEffect i {| changeDuration := None;
                                    changeDisabled := Some disabled |})
      ∧ effects actor' !! i
        = Some {| ActiveEffect.name := ActiveEffect.name e;
                  ActiveEffect.origin := ActiveEffect.origin e;
                  ActiveEffect.disabled := disabled;
                  ActiveEffect.transfer := ActiveEffect.transfer e;
                  ActiveEffect.duration := ActiveEffect.duration e;
                  ActiveEffect.extra := ActiveEffect.extra e |}
      ∧ (∀ j, j ≠ i → effects actor' !! j = effects actor !! j)
      ∧ length (effects actor') = length (effects actor)
  | None => run = ret tt
  end.
Proof.
  intros run actor' Hactor Hgm Haction. subst actor' run.
  rewrite (enableDisable_run _ _ _ _ _ Hactor Hgm Haction).
  unfold ActiveEffectEventsRegionBehaviorType.onEnableDisable.
  destruct (getName actor _) as [[i e]|] eqn:Hname; [| done].
  apply list_find_Some in Hname as (Hlookup & _ & _).
  rewrite performAll_call, effects_update.
  split; [done|]. split; [|split].
  - by rewrite list_lookup_alter_eq, Hlookup.
  - intros j Hj. by rewrite list_lookup_alter_ne.
  - apply length_alter.
Qed.

Lemma enableDisable_by_name_witness :
  let actor := {| effects := [Scene.applied; Scene.rage] |} in
  ActiveEffectEventsRegionBehaviorType._handleRegionEvent Scene.game
    (Scene.activeEffectEvents "disable") (Scene.eventOn (Some actor))
  = call (updateEffect 1 {| changeDuration := None; changeDisabled := Some true |}).
Proof.
  intros actor.
  pose proof (enableDisable_by_name Scene.game (Scene.activeEffectEvents "disable")
                (Scene.eventOn (Some actor)) actor true
                eq_refl eq_refl eq_refl) as Hfound.
  change (getName actor _) with (Some (1, Scene.rage)) in Hfound.
  exact (proj1 Hfound).
Defined.

(** X15: on an actor whose effect of the configured name is enabled, the
    disable action followed by the enable action for the same name gives
    back the actor's effect collection as it was before. *)
Theorem disable_enable_round_trip (game1 game2 : Game)
    (off on : ActiveEffectEventsRegionBehaviorType.t)
    (event1 event2 : RegionEvent) (actor : Actor) (i : nat) (e : ActiveEffect.t) :
  let actor1 :=
    performAll (calls (ActiveEffectEventsRegionBehaviorType._handleRegionEvent
                         game1 off event1)) actor in
  let actor2 :=
    performAll (calls (ActiveEffectEventsRegionBehaviorType._handleRegionEvent
                         game2 on event2)) actor1 in
  eventActor event1 = Some actor → eventActor event2 = Some actor1 →
  ActiveEffectEventsRegionBehaviorType.isActiveGM game1 = true →
  ActiveEffectEventsRegionBehaviorType.isActiveGM game2 = true →
  ActiveEffectEventsRegionBehaviorType.action off = Some "disable" →
  ActiveEffectEventsRegionBehaviorType.action on = Some "enable" →
  ActiveEffectEventsRegionBehaviorType.name on
    = ActiveEffectEventsRegionBehaviorType.name off →
  getName actor (ActiveEffectEventsRegionBehaviorType.name off) = Some (i, e) →
  ActiveEffect.disabled e = false →
  ActiveEffect.disabled <$> effects actor1 !! i = Some true ∧ actor2 = actor.
Proof.
  intros actor1 actor2 Hactor1 Hactor2 Hgm1 Hgm2 Hoff Hon Hsame Hname Henabled.
  subst actor2 actor1. revert Hactor2.
  rewrite (enableDisable_run _ _ _ _ true Hactor1 Hgm1 Hoff).
  unfold ActiveEffectEventsRegionBehaviorType.onEnableDisable.
  rewrite Hname, performAll_call. intros Hactor2.
  destruct (getName_updated _ _ _ i {| changeDuration := None;
                                       changeDisabled := Some true |} _ Hname)
    as [e' Hname'].
  rewrite (enableDisable_run _ _ _ _ false Hactor2 Hgm2 Hon).
  unfold ActiveEffectEventsRegionBehaviorType.onEnableDisable.
  rewrite Hsame, Hname', performAll_call.
  apply list_find_Some in Hname as (Hlookup & _ & _).
  split.
  - by rewrite effects_update, list_lookup_alter_eq, Hlookup.
  - apply actor_eq. rewrite !effects_update, list_alter_alter_eq.
    apply (alter_fixed _ _ _ e); [done|].
    destruct e; simpl in *. by subst.
Qed.

Lemma disable_enable_round_trip_witness :
  let actor := {| effects := [Scene.applied; Scene.rage] |} in
  let actor1 :=
    performAll (calls (ActiveEffectEventsRegionBehaviorType._handleRegionEvent
                         Scene.game (Scene.activeEffectEvents "disable")
                         (Scene.eventOn (Some actor)))) actor in
  performAll (calls (ActiveEffectEventsRegionBehaviorType._handleRegionEvent
                       Scene.game (Scene.activeEffectEvents "enable")
                       (Scene.eventOn (Some actor1)))) actor1 = actor.
Proof.
  intros actor actor1.
  exact (proj2 (disable_enable_round_trip Scene.game Scene.game
                  (Scene.activeEffectEvents "disable")
                  (Scene.activeEffectEvents "enable")
                  (Scene.eventOn (Some actor)) (Scene.eventOn (Some actor1))
                  actor 1 Scene.rage
                  eq_refl eq_refl eq_refl eq_refl eq_refl eq_refl eq_refl
                  eq_refl eq_refl)).
Defined.

(** X16: with action delete on the active GM's client, the handler deletes
    the first effect that has the configured name, and only that one; when
    no effect has that name it does nothing. *)
Theorem delete_by_name (game : Game)
    (this : ActiveEffectEventsRegionBehaviorType.t) (event : RegionEvent)
    (actor : Actor) :
  let run := ActiveEffectEventsRegionBehaviorType._handleRegionEvent game this event in
  let actor' := performAll (calls run) actor in
  eventActor event = Some actor →
  ActiveEffectEventsRegionBehaviorType.isActiveGM game = true →
  ActiveEffectEventsRegionBehaviorType.action this = Some "delete" →
  match getName actor (ActiveEffectEventsRegionBehaviorType.name this) with
  | Some (i, e) =>
      run = call (deleteEffect i)
      ∧ effects actor !! i = Some e
      ∧ Some (ActiveEffect.name e) = ActiveEffectEventsRegionBehaviorType.name this
      ∧ (∀ j e', j < i → effects actor !! j = Some e' →
           Some (ActiveEffect.name e')
             ≠ ActiveEffectEventsRegionBehaviorType.name this)
      ∧ effects actor' = take i (effects actor) ++ drop (S i) (effects actor)
      ∧ S (length (effects actor')) = length (effects actor)
  | None => run = ret tt ∧ actor' = actor
  end.
Proof.
  intros run actor' Hactor Hgm Haction. subst actor' run.
  unfold ActiveEffectEventsRegionBehaviorType._handleRegionEvent, caseOf.
  rewrite Hactor, Hgm, Haction. simpl negb. cbv iota.
  do 4 rewrite bool_decide_eq_false_2 by done.
  rewrite bool_decide_eq_true_2 by done.
  destruct (getName actor _) as [[i e]|] eqn:Hname; [| done].
  apply list_find_Some in Hname as (Hlookup & Hsame & Hfirst).
  change (performAll (calls (call (deleteEffect i))) actor)
    with (perform (deleteEffect i) actor).
  rewrite effects_delete.
  split; [done|]. split; [done|]. split; [done|]. split; [|split].
  - intros j e' Hj Hlookup'. by apply (Hfirst j).
  - apply delete_take_drop.
  - rewrite length_delete by eauto.
    apply lookup_lt_Some in Hlookup. lia.
Qed.

Lemma delete_by_name_witness :
  let actor := {| effects := [Scene.applied; Scene.rage; Scene.rage] |} in
  performAll (calls (ActiveEffectEventsRegionBehaviorType._handleRegionEvent
                       Scene.game (Scene.activeEffectEvents "delete")
                       (Scene.eventOn (Some actor)))) actor
  = {| effects := [Scene.applied; Scene.rage] |}.
Proof.
  intros actor.
  pose proof (delete_by_name Scene.game (Scene.activeEffectEvents "delete")
                (Scene.eventOn (Some actor)) actor eq_refl eq_refl eq_refl)
    as Hfound.
  change (getName actor _) with (Some (1, Scene.rage)) in Hfound.
  destruct Hfound as (Hrun & _).
  by rewrite Hrun.
Defined.

(** X17: an action that is null or none of add, resetDuration, enable,
    disable and delete makes the events handler do nothing. *)
Theorem unknown_action_noop (game : Game)
    (this : ActiveEffectEventsRegionBehaviorType.t) (event : RegionEvent) :
  ActiveEffectEventsRegionBehaviorType.action this
    ∉ [Some "add"; Some "resetDuration"; Some "enable"; Some "disable"; Some "delete"] →
  ActiveEffectEventsRegionBehaviorType._handleRegionEvent game this event = ret tt.
Proof.
  intros Haction.
  unfold ActiveEffectEventsRegionBehaviorType._handleRegionEvent, caseOf.
  do 5 (rewrite bool_decide_eq_false_2 by (intros Heq; apply Haction; rewrite Heq;
                                            set_solver)).
  by destruct (eventActor event),
              (ActiveEffectEventsRegionBehaviorType.isActiveGM game).
Qed.

Lemma unknown_action_noop_witness :
  ActiveEffectEventsRegionBehaviorType._handleRegionEvent Scene.game
    {| ActiveEffectEventsRegionBehaviorType.action := None;
       ActiveEffectEventsRegionBehaviorType.uuid := Some Scene.templateUuid;
       ActiveEffectEventsRegionBehaviorType.name := Some "Rage";
       ActiveEffectEventsRegionBehaviorType.parent := Scene.behavior |}
    (Scene.eventOn (Some {| effects := [Scene.rage] |})) = ret tt.
Proof.
  apply unknown_action_noop. simpl.
  apply (bool_decide_unpack _). by vm_compute.
Defined.
